(** * SmartHarvest portal: the account store of [app.py]

    A shallow embedding of the helper and authentication functions of
    [src/app.py] ([hash_password], [check_password], [get_user_path],
    [load_users], [save_users], [register_user], [login_user] and the
    "Create Account" button handler), with the properties of the account
    store proved over it; then the Login and Logout handlers with the
    session state, and the weather utilities [will_rain_in_next_hours],
    [cloud_visual] and [geocode_place].

    Modelling choices.
    - [users/users.csv] is represented by the rows it holds, each cell as
      the text in the file ([None] when the file does not exist, [Some []]
      for a header-only file).  A [DataFrame] with the columns [username]
      and [password] is the list of its rows in index order, and reading the
      file gives the cells back as that text.  [pd.read_csv] does so only
      for cells that are text to it: statements about what is read back
      carry [text_table] or [plain_name] as a hypothesis (defined
      below).
    - [str.encode] and [bytes.decode] are the identity: a [string] is
      already a sequence of bytes.
    - The [bcrypt] package is an interface ([Bcrypt]): [gensalt] reads an
      entropy counter kept in the world, [hashpw] may raise.  [checkpw] is
      defined from [hashpw] the way the package does it.
    - Python exceptions are the [Raise] outcome of a state-and-exception
      monad; the world reached when the exception was raised is kept, since
      writes made before a raise are not rolled back.
    - Failures of the file system itself are not modelled. *)

From Stdlib Require Import String Ascii List Bool Arith ZArith Lia.
From Stdlib Require QArith.
Import ListNotations.
Open Scope string_scope.
Open Scope list_scope.

(** ** Exceptions, the world, and the monad *)

Inductive Exn : Type :=
| ValueError (msg : string).

(** One row of [users.csv]. *)
Record Row : Type := mkRow { username : string; password : string }.

Definition DataFrame : Type := list Row.

(** What the streamlit calls of the modelled functions show on the page. *)
Inductive Notice : Type :=
| Warning (msg : string)
| Success (msg : string)
| Balloons.

Record World : Type := mkWorld {
  users_csv : option DataFrame;   (* users/users.csv *)
  user_dirs : list string;        (* directories made by get_user_path *)
  entropy   : nat;                (* salts drawn from the OS so far *)
  notices   : list Notice         (* page output, oldest first *)
}.

Inductive Outcome (A : Type) : Type :=
| Return (a : A) (w : World)
| Raise (e : Exn) (w : World).
Arguments Return {A} a w.
Arguments Raise {A} e w.

Definition M (A : Type) : Type := World -> Outcome A.

Definition ret {A} (a : A) : M A := fun w => Return a w.

Definition bind {A B} (m : M A) (k : A -> M B) : M B :=
  fun w => match m w with
           | Return a w' => k a w'
           | Raise e w' => Raise e w'
           end.

Definition raise {A} (e : Exn) : M A := fun w => Raise e w.

(** [try: body except Exception: handler] *)
Definition try_except {A} (body : M A) (handler : Exn -> M A) : M A :=
  fun w => match body w with
           | Return a w' => Return a w'
           | Raise e w' => handler e w'
           end.

Definition lift {A} (r : Exn + A) : M A :=
  match r with
  | inl e => raise e
  | inr a => ret a
  end.

Declare Scope py_scope.
Delimit Scope py_scope with py.
Notation "x <- m ;; k" := (bind m (fun x => k))
  (at level 100, m at next level, right associativity) : py_scope.
Notation "m ;;; k" := (bind m (fun _ => k))
  (at level 100, right associativity) : py_scope.
Open Scope py_scope.

Definition outcome_world {A} (o : Outcome A) : World :=
  match o with
  | Return _ w => w
  | Raise _ w => w
  end.

(** ** World primitives *)

Definition set_users_csv (df : DataFrame) (w : World) : World :=
  mkWorld (Some df) (user_dirs w) (entropy w) (notices w).

(** [df.to_csv(users_file, index=False)] *)
Definition to_csv (df : DataFrame) : M unit :=
  fun w => Return tt (set_users_csv df w).

(** [os.path.join(a, b)] on POSIX, for [a] without a trailing slash. *)
Definition path_join (a b : string) : string :=
  if prefix "/" b then b else a ++ "/" ++ b.

Definition USER_DIR : string := "users".

(** [os.makedirs(path, exist_ok=True)] *)
Definition makedirs (path : string) : M unit :=
  fun w => Return tt
    (mkWorld (users_csv w)
             (if existsb (String.eqb path) (user_dirs w)
              then user_dirs w else user_dirs w ++ [path])
             (entropy w) (notices w)).

Definition st_notice (n : Notice) : M unit :=
  fun w => Return tt
    (mkWorld (users_csv w) (user_dirs w) (entropy w) (notices w ++ [n])).

(** ** The bcrypt package *)

Class Bcrypt : Type := {
  (** the salt string [bcrypt.gensalt()] returns at a given entropy state *)
  gensalt : nat -> string;
  (** [bcrypt.hashpw(password, salt)]; [inl] is a raised exception *)
  hashpw : string -> string -> Exn + string
}.

Section Store.

Context {B : Bcrypt}.

(** [bcrypt.gensalt()]: consumes entropy. *)
Definition draw_salt : M string :=
  fun w => Return (gensalt (entropy w))
    (mkWorld (users_csv w) (user_dirs w) (S (entropy w)) (notices w)).

(** [bcrypt.checkpw]: hashes the password with the stored hash as salt and
    compares the result with the stored hash. *)
Definition checkpw (passwd hashed : string) : Exn + bool :=
  match hashpw passwd hashed with
  | inl e => inl e
  | inr r => inr (String.eqb r hashed)
  end.

(** [bcrypt.hashpw(pwd.encode(), bcrypt.gensalt()).decode()] *)
Definition hash_password (passwd : string) : M string :=
  salt <- draw_salt ;;
  lift (hashpw passwd salt).

Definition check_password (passwd hashed : string) : M bool :=
  lift (checkpw passwd hashed).

Definition get_user_path (user : string) : M string :=
  let path := path_join USER_DIR user in
  makedirs path ;;;
  ret path.

(** The body of the [for idx, row in df.iterrows()] loop of [load_users]:
    the row as the frame holds it afterwards, and whether [changed] was
    set. *)
Definition migrate_row (row : Row) : M (Row * bool) :=
  let pwd := password row in
  if negb (prefix "$2" pwd) then
    try_except
      (hashed <- hash_password pwd ;;
       ret (mkRow (username row) hashed, true))
      (fun _ => ret (row, false))
  else ret (row, false).

(** The whole loop, from a given value of [changed]. *)
Fixpoint migrate_rows (rows : list Row) (changed : bool)
  : M (DataFrame * bool) :=
  match rows with
  | [] => ret ([], changed)
  | row :: rest =>
      rc <- migrate_row row ;;
      dc <- migrate_rows rest (changed || snd rc) ;;
      ret (fst rc :: fst dc, snd dc)
  end.

Definition load_users : M DataFrame :=
  fun w =>
    match users_csv w with
    | Some df =>
        (dc <- migrate_rows df false ;;
         (if snd dc then to_csv (fst dc) else ret tt) ;;;
         ret (fst dc)) w
    | None => Return [] w
    end.

Definition save_users (df : DataFrame) : M unit := to_csv df.

(** [username in users["username"].values] *)
Definition username_in (user : string) (users : DataFrame) : bool :=
  existsb (String.eqb user) (map username users).

Definition register_user (user passwd : string) : M bool :=
  users <- load_users ;;
  if username_in user users then
    st_notice (Warning "Username already exists.") ;;;
    ret false
  else
    hashed <- hash_password passwd ;;
    let new_user := [mkRow user hashed] in
    let users := users ++ new_user in
    save_users users ;;;
    get_user_path user ;;;
    st_notice (Success "Account created! Please log in.") ;;;
    ret true.

(** [users[users["username"] == username]] *)
Definition select_user (user : string) (users : DataFrame) : DataFrame :=
  filter (fun r => String.eqb (username r) user) users.

Definition login_user (user passwd : string) : M bool :=
  users <- load_users ;;
  match select_user user users with
  | r :: _ =>
      ok <- check_password passwd (password r) ;;
      if ok then ret true else ret false
  | [] => ret false
  end.

(** The handler of the "Create Account" button. *)
Definition create_account (new_user new_pass confirm_pass : string)
  : M unit :=
  if (new_user =? "") || (new_pass =? "") then
    st_notice (Warning "Please enter all fields.")
  else if negb (new_pass =? confirm_pass) then
    st_notice (Warning "Passwords do not match.")
  else
    ok <- register_user new_user new_pass ;;
    if ok then st_notice Balloons else ret tt.

End Store.

(** ** What the store relies on from bcrypt

    - a hash returned by [hashpw] carries the marker of the hash family;
    - a hash embeds the salt and cost it was made with, so hashing the same
      password with the hash as salt gives the hash back;
    - whether a password is rejected does not depend on which generated
      salt it is hashed with. *)
Class BcryptLaws (B : Bcrypt) : Prop := {
  hashpw_marker : forall p s h, hashpw p s = inr h -> prefix "$2" h = true;
  hashpw_rehash : forall p s h, hashpw p s = inr h -> hashpw p h = inr h;
  hashpw_reject : forall p n m e,
      hashpw p (gensalt n) = inl e -> exists e', hashpw p (gensalt m) = inl e'
}.

(** The hasher accepts [p]: hashing it with a generated salt does not
    raise. *)
Definition accepts {B : Bcrypt} (p : string) : Prop :=
  forall n, exists h, hashpw p (gensalt n) = inr h.

(** ** A stand-in for the bcrypt package

    It keeps the format of the package's strings and its error cases: a
    salt is [$2v$cc$] followed by at least 22 characters of the bcrypt
    alphabet, a hash is the salt's first 29 characters followed by a
    31-character digest, an ill-formed salt raises [ValueError], and so
    does a password of more than 72 bytes.  The digest itself is a
    placeholder for the Blowfish-based one. *)
Module Standin.

Definition alphabet : string :=
  "./ABCDEFGHIJKLMNOPQRSTUVWXYZabcdefghijklmnopqrstuvwxyz0123456789".

Definition alpha (n : nat) : ascii :=
  match get (n mod 64) alphabet with
  | Some c => c
  | None => "."%char
  end.

Definition in_alphabet (c : ascii) : bool :=
  existsb (Ascii.eqb c) (list_ascii_of_string alphabet).

Fixpoint take (n : nat) (s : string) : string :=
  match n, s with
  | S n', String c s' => String c (take n' s')
  | _, _ => EmptyString
  end.

Fixpoint all_chars (f : ascii -> bool) (s : string) : bool :=
  match s with
  | EmptyString => true
  | String c s' => f c && all_chars f s'
  end.

Fixpoint map_chars (f : ascii -> ascii) (s : string) : string :=
  match s with
  | EmptyString => EmptyString
  | String c s' => String (f c) (map_chars f s')
  end.

(** 22 characters of the alphabet: the digits of [n] in base 64, least
    significant first. *)
Fixpoint salt_chars (k n : nat) : string :=
  match k with
  | O => EmptyString
  | S k' => String (alpha n) (salt_chars k' (n / 64))
  end.

Definition pad : string := "...............................".

Definition digest (passwd salt22 : string) : string :=
  take 31 (map_chars (fun c => alpha (nat_of_ascii c)) (passwd ++ salt22)
           ++ pad).

Definition is_digit (c : ascii) : bool :=
  (48 <=? nat_of_ascii c)%nat && (nat_of_ascii c <=? 57)%nat.

Definition is_version (c : ascii) : bool :=
  existsb (Ascii.eqb c) ["a"; "b"; "x"; "y"]%char.

Definition invalid_salt : Exn := ValueError "Invalid salt".

Definition hashpw (passwd salt : string) : Exn + string :=
  if (72 <? String.length passwd)%nat then
    inl (ValueError "password cannot be longer than 72 bytes")
  else
    match salt with
    | String d1 (String two (String v (String d2
        (String c1 (String c2 (String d3 rest)))))) =>
        if (d1 =? "$")%char && (two =? "2")%char && is_version v
           && (d2 =? "$")%char && is_digit c1 && is_digit c2
           && (d3 =? "$")%char
           && (22 <=? String.length rest)%nat
           && all_chars in_alphabet (take 22 rest)
        then inr (String d1 (String two (String v (String d2
                   (String c1 (String c2 (String d3
                      (take 22 rest ++ digest passwd (take 22 rest)))))))))
        else inl invalid_salt
    | _ => inl invalid_salt
    end.

Definition gensalt (n : nat) : string := "$2b$12$" ++ salt_chars 22 n.

End Standin.

Definition standin_bcrypt : Bcrypt :=
  {| gensalt := Standin.gensalt; hashpw := Standin.hashpw |}.

Definition world0 (csv : option DataFrame) : World := mkWorld csv [] 0 [].

(** ** Notions used in the statements *)

(** The world after one salt was drawn. *)
Definition tick (w : World) : World :=
  mkWorld (users_csv w) (user_dirs w) (S (entropy w)) (notices w).

(** Drawing salts is all that happened between [w] and [w']. *)
Definition only_entropy (w w' : World) : Prop :=
  users_csv w' = users_csv w /\ user_dirs w' = user_dirs w /\
  notices w' = notices w /\ entropy w <= entropy w'.

(** The stored rows without the marker: the ones the loop tries to hash. *)
Definition legacy (r : Row) : bool := negb (prefix "$2" (password r)).

Definition legacy_count (rows : list Row) : nat :=
  length (filter legacy rows).

Definition add_entropy (k : nat) (w : World) : World :=
  mkWorld (users_csv w) (user_dirs w) (k + entropy w) (notices w).

(** The first row of a frame with a given username. *)
Definition first_match (user : string) (users : DataFrame) : option Row :=
  find (fun r => String.eqb (username r) user) users.

(** The persisted table: the frame in [users.csv], empty when there is no
    file. *)
Definition stored (w : World) : DataFrame :=
  match users_csv w with
  | Some df => df
  | None => []
  end.

(** The world after the warning of a refused registration. *)
Definition warned (w : World) : World :=
  mkWorld (users_csv w) (user_dirs w) (entropy w)
          (notices w ++ [Warning "Username already exists."]).

(** The world after a registration that went through, from the world [w]
    and the frame [users] that [load_users] gave. *)
Definition registered (user h : string) (users : DataFrame) (w : World)
  : World :=
  mkWorld (Some (users ++ [mkRow user h]))
          (if existsb (String.eqb (path_join USER_DIR user)) (user_dirs w)
           then user_dirs w
           else user_dirs w ++ [path_join USER_DIR user])
          (S (entropy w))
          (notices w ++ [Success "Account created! Please log in."]).

(** A password of 73 bytes, which the stand-in hasher rejects. *)
Definition long_password : string :=
  "0123456789012345678901234567890123456789012345678901234567890123456789012".

Section RowRelations.

Context {B : Bcrypt}.

(** How one stored row relates to the row the loop leaves in its place: the
    username is kept, and the password field is either kept or, for a field
    without the marker, replaced by a hash of it. *)
Definition row_step (r r' : Row) : Prop :=
  username r' = username r /\
  (r' = r \/
   (prefix "$2" (password r) = false /\
    exists s, hashpw (password r) s = inr (password r'))).

(** What the loop leaves in place of a stored row: the row itself when its
    field has the marker; otherwise the result of hashing the field with
    some generated salt, the row itself when that raised. *)
Definition row_outcome (r r' : Row) : Prop :=
  if prefix "$2" (password r) then r' = r
  else exists n,
      match hashpw (password r) (gensalt n) with
      | inl _ => r' = r
      | inr h => r' = mkRow (username r) h
      end.

End RowRelations.

(** ** Notions used for the rest of the account store *)

(** What the caller of an operation sees: the value returned or the
    exception raised. *)
Definition outcome_result {A} (o : Outcome A) : Exn + A :=
  match o with
  | Return a _ => inr a
  | Raise e _ => inl e
  end.

(** Every field of the frame carries the marker of the hash family. *)
Definition all_marked (df : DataFrame) : Prop :=
  Forall (fun r => prefix "$2" (password r) = true) df.

(** The field of a row is a hash, or a value the hasher rejects with some
    generated salt. *)
Definition hashed_or_rejected {B : Bcrypt} (r : Row) : Prop :=
  prefix "$2" (password r) = true \/
  exists n e, hashpw (password r) (gensalt n) = inl e.

(** A frame that [load_users] returns as it is stored. *)
Definition settled {B : Bcrypt} (df : DataFrame) : Prop :=
  forall df', Forall2 row_outcome df df' -> df' = df.

(** ** Session state and the buttons of the login screen *)

(** [st.session_state]: the two keys the script keeps. *)
Record Session : Type := mkSession {
  authenticated : bool;
  session_username : string
}.

(** The defaults the script installs when the keys are missing. *)
Definition initial_session : Session := mkSession false "".

(** What a button handler leaves besides the world: the session state, the
    [st.error] box it showed, and whether it ended in [st.rerun()]. *)
Record Step : Type := mkStep {
  next_session : Session;
  error_shown : option string;
  rerun : bool
}.

Section Screens.

Context {B : Bcrypt}.

(** The handler of the "Login" button. *)
Definition login_button (user passwd : string) (s : Session) : M Step :=
  ok <- login_user user passwd ;;
  if ok then
    st_notice (Success ("Welcome " ++ user ++ "! Redirecting...")%string) ;;;
    ret (mkStep (mkSession true user) None true)
  else
    ret (mkStep s (Some "Invalid username or password.") false).

(** The handler of the "Logout" button of the sidebar. *)
Definition logout_button (s : Session) : M Step :=
  ret (mkStep (mkSession false "") None true).

(** One press of a button, with the text the form holds. *)
Inductive Event : Type :=
| ClickLogin (user passwd : string)
| ClickCreate (new_user new_pass confirm_pass : string)
| ClickLogout.

(** One run of the script on a press: the login and sign-up forms exist
    only while [authenticated] is false, the logout button only while it is
    true. *)
Definition handle (ev : Event) (s : Session) : M Session :=
  if negb (authenticated s) then
    match ev with
    | ClickLogin user passwd =>
        st <- login_button user passwd s ;; ret (next_session st)
    | ClickCreate new_user new_pass confirm_pass =>
        create_account new_user new_pass confirm_pass ;;; ret s
    | ClickLogout => ret s
    end
  else
    match ev with
    | ClickLogout => st <- logout_button s ;; ret (next_session st)
    | _ => ret s
    end.

(** A sequence of presses.  A run that raises leaves the session state as
    it was and the world as the raise found it. *)
Fixpoint run (evs : list Event) (s : Session) (w : World)
  : Session * World :=
  match evs with
  | [] => (s, w)
  | ev :: rest =>
      match handle ev s w with
      | Return s' w' => run rest s' w'
      | Raise _ w' => run rest s w'
      end
  end.

End Screens.

(** The session names a registered user when authenticated, and no user
    otherwise. *)
Definition session_ok (s : Session) (w : World) : Prop :=
  (authenticated s = true ->
   In (session_username s) (map username (stored w))) /\
  (authenticated s = false -> session_username s = "").

(** ** The weather utilities

    The decoded response of the forecast API is taken in the shape the API
    documents: an object whose key [hourly], when present, is an object
    whose keys [precipitation] and [time], when present, are arrays.  What
    the arrays hold is left open: a reading is anything [float(x) > 0] can
    be asked of, which may raise (a [null] reading does). *)

Inductive PyExc : Type :=
| AttributeError
| TypeError
| KeyError
| IndexError
| Other (e : Exn).

Class Reading (R : Type) : Type := {
  (** [float(x) > 0] *)
  float_positive : R -> PyExc + bool
}.

Record Hourly (R T : Type) : Type := mkHourly {
  precipitation : option (list R);
  time : option (list T)
}.
Arguments mkHourly {R T} _ _.
Arguments precipitation {R T} _.
Arguments time {R T} _.

Record Weather (R T : Type) : Type := mkWeather {
  hourly : option (Hourly R T)
}.
Arguments mkWeather {R T} _.
Arguments hourly {R T} _.

(** [d.get(key, default)] for a key that may be missing. *)
Definition get_default {A} (field : option A) (default : A) : A :=
  match field with
  | Some v => v
  | None => default
  end.

Section Rain.

Context {R T : Type} {RD : Reading R}.

(** The [for i in range(...)] loop of [will_rain_in_next_hours], over the
    indices still to visit. *)
Fixpoint rain_scan (precip : list R) (times : list T) (indices : list nat)
  : PyExc + (bool * option T) :=
  match indices with
  | [] => inr (false, None)
  | i :: rest =>
      match nth_error precip i with
      | None => inl IndexError
      | Some x =>
          match float_positive x with
          | inl e => inl e
          | inr true =>
              match nth_error times i with
              | Some t => inr (true, Some t)
              | None => inl IndexError
              end
          | inr false => rain_scan precip times rest
          end
      end
  end.

Definition will_rain_in_next_hours (weather_json : Weather R T) (hours : Z)
  : PyExc + (bool * option T) :=
  let hourly := get_default (hourly weather_json) (mkHourly None None) in
  let precip := get_default (precipitation hourly) [] in
  let times := get_default (time hourly) [] in
  rain_scan precip times
    (seq 0 (Z.to_nat (Z.min hours (Z.of_nat (length precip))))).

End Rain.

(** [cloud_visual], on a finite number. *)
Definition cloud_visual (cloudcover : QArith_base.Q) : string :=
  if QArith_base.Qle_bool (QArith_base.inject_Z 75) cloudcover then
    "🌧️ Dark Clouds"
  else if QArith_base.Qle_bool (QArith_base.inject_Z 30) cloudcover then
    "🌥️ Partly Cloudy"
  else
    "☀️ Clear Skies".

(** Readings for the examples: tenths of a millimetre, or [null]. *)
Definition tenths_reading : Reading (option Z) :=
  {| float_positive := fun x =>
       match x with
       | Some z => inr (0 <? z)%Z
       | None => inl TypeError
       end |}.

(** The two arrays [will_rain_in_next_hours] reads, with the defaults it
    uses for missing keys. *)
Definition readings {R T} (w : Weather R T) : list R :=
  get_default (precipitation (get_default (hourly w) (mkHourly None None))) [].

Definition stamps {R T} (w : Weather R T) : list T :=
  get_default (time (get_default (hourly w) (mkHourly None None))) [].

(** A reading that lets the loop go on: [float(x) > 0] is false. *)
Definition dry {R} {RD : Reading R} (x : R) : Prop :=
  float_positive x = inr false.

(** What the loop answers at the first reading that is not dry. *)
Definition decided {R T} {RD : Reading R} (times : list T) (x : R) (i : nat)
  : PyExc + (bool * option T) :=
  match float_positive x with
  | inl e => inl e
  | inr _ =>
      match nth_error times i with
      | Some t => inr (true, Some t)
      | None => inl IndexError
      end
  end.

(** ** Geocoding

    The decoded response of the geocoding API: an object whose key
    [results], when present and not [null], is an array of objects.  The
    request itself ([requests.get], [raise_for_status], [r.json()]) is an
    oracle that may raise. *)

(** A JSON object as a Python dict: keys with their values. *)
Definition Dict (V : Type) : Type := list (string * V).

(** [d.get(key)] *)
Fixpoint dict_get {V} (d : Dict V) (key : string) : option V :=
  match d with
  | [] => None
  | (k, v) :: rest => if String.eqb k key then Some v else dict_get rest key
  end.

(** [d[key]] *)
Definition dict_item {V} (d : Dict V) (key : string) : PyExc + V :=
  match dict_get d key with
  | Some v => inr v
  | None => inl KeyError
  end.

Record GeoResponse (V : Type) : Type := mkGeoResponse {
  results : option (list (Dict V))
}.
Arguments mkGeoResponse {V} _.
Arguments results {V} _.

(** A value of the [params] dict of a request. *)
Inductive Param : Type :=
| PStr (s : string)
| PInt (z : Z).

Class Geocoder (V : Type) : Type := {
  (** the GET request to a URL with parameters and a timeout in seconds,
      checked and decoded *)
  geocoding_get : string -> Dict Param -> Z -> PyExc + GeoResponse V
}.

Section Geocode.

Context {V : Type} {G : Geocoder V}.

Definition geocode_place (place_name : string)
  : PyExc + option (V * V * option V * option V) :=
  let url := "https://geocoding-api.open-meteo.com/v1/search" in
  let params := [("name", PStr place_name); ("count", PInt 1)] in
  match geocoding_get url params 8 with
  | inl e => inl e
  | inr j =>
      match results j with
      | None | Some [] => inr None
      | Some (first :: _) =>
          match dict_item first "latitude" with
          | inl e => inl e
          | inr lat =>
              match dict_item first "longitude" with
              | inl e => inl e
              | inr lon =>
                  inr (Some (lat, lon, dict_get first "name",
                             dict_get first "country"))
              end
          end
      end
  end.

(** The response the request gets for a place name. *)
Definition geocoding_reply (place_name : string) : PyExc + GeoResponse V :=
  geocoding_get "https://geocoding-api.open-meteo.com/v1/search"
    [("name", PStr place_name); ("count", PInt 1)] 8.

End Geocode.

(** ** Inputs of the examples *)

(** A table with one migrated row: the hash is the one the stand-in makes
    of [hunter2] with its first salt. *)
Definition alice_hash : string :=
  "$2b$12$......................mzsyjwwssssssssssssssssssssss..".

Definition alice_world : World := world0 (Some [mkRow "alice" alice_hash]).

(** A forecast with rain in the third hour. *)
Definition forecast : Weather (option Z) string :=
  mkWeather (Some (mkHourly
    (Some [Some 0%Z; Some 0%Z; Some 4%Z; None; Some 1%Z])
    (Some ["00:00"; "01:00"; "02:00"; "03:00"; "04:00"]))).

(** A geocoder that knows one place. *)
Definition one_place : Geocoder string :=
  {| geocoding_get := fun _ _ _ =>
       inr (mkGeoResponse
              (Some [[("latitude", "12.97"); ("longitude", "77.59");
                      ("name", "Bengaluru")]])) |}.

(** ** Cells that are read back as written

    [users_csv] holds the cells of the file as text, and [load_users] gives
    them back as that text.  [pd.read_csv] does so for a cell that is text to
    it; a cell that looks like a number, a boolean or a missing value is
    given back as a value of that type, and a whole column of such cells
    changes its type.  [text_cell] is a sufficient condition for a cell to
    be text whatever else its column holds: it starts with a letter or a
    dollar sign, is made of letters, digits and [$ . / _ -], and is none of
    the words read as missing, boolean or infinite.  [plain_name] is the
    same for a username that is also the name of a directory: letters,
    digits, [_] and [-] only, at most 255 bytes. *)

Definition ascii_between (lo hi : nat) (c : ascii) : bool :=
  (lo <=? nat_of_ascii c)%nat && (nat_of_ascii c <=? hi)%nat.

Definition is_letter (c : ascii) : bool :=
  ascii_between 65 90 c || ascii_between 97 122 c.

Definition is_decimal (c : ascii) : bool := ascii_between 48 57 c.

Definition to_lower (c : ascii) : ascii :=
  if ascii_between 65 90 c then ascii_of_nat (nat_of_ascii c + 32) else c.

Fixpoint lowercase (s : string) : string :=
  match s with
  | EmptyString => EmptyString
  | String c s' => String (to_lower c) (lowercase s')
  end.

Fixpoint string_forall (f : ascii -> bool) (s : string) : bool :=
  match s with
  | EmptyString => true
  | String c s' => f c && string_forall f s'
  end.

(** The words, in lower case, that are not read as text. *)
Definition retyped_words : list string :=
  ["na"; "n/a"; "nan"; "null"; "none"; "true"; "false"; "inf"; "infinity"].

Definition is_retyped_word (s : string) : bool :=
  existsb (String.eqb (lowercase s)) retyped_words.

Definition cell_char (c : ascii) : bool :=
  is_letter c || is_decimal c
  || existsb (Ascii.eqb c) ["$"; "."; "/"; "_"; "-"]%char.

Definition name_char (c : ascii) : bool :=
  is_letter c || is_decimal c || existsb (Ascii.eqb c) ["_"; "-"]%char.

Definition text_cell (s : string) : bool :=
  match s with
  | EmptyString => false
  | String c _ =>
      (is_letter c || (c =? "$")%char)
      && string_forall cell_char s
      && negb (is_retyped_word s)
  end.

Definition plain_name (s : string) : bool :=
  match s with
  | EmptyString => false
  | String c _ =>
      is_letter c
      && string_forall name_char s
      && negb (is_retyped_word s)
      && (String.length s <=? 255)%nat
  end.

(** Every cell of the table is read back as written. *)
Definition text_table (df : DataFrame) : Prop :=
  Forall (fun r => text_cell (username r) = true /\
                   text_cell (password r) = true) df.

(** A press that, if it creates an account, does so for a plain name. *)
Definition event_plain {B : Bcrypt} (ev : Event) : Prop :=
  match ev with
  | ClickCreate new_user _ _ => plain_name new_user = true
  | _ => True
  end.

(** A password of 74 letters: text to the file, too long for the
    stand-in hasher. *)
Definition long_text_password : string :=
  "correcthorsebatterystaplecorrecthorsebatterystaplecorrecthorsebatterystapl".


(** * Properties *)

(** ** The migration loop *)

Lemma only_entropy_refl w : only_entropy w w.
Proof. repeat split; auto. Qed.

Lemma only_entropy_tick w : only_entropy w (tick w).
Proof. repeat split; simpl; auto. Qed.

Lemma only_entropy_trans w1 w2 w3 :
  only_entropy w1 w2 -> only_entropy w2 w3 -> only_entropy w1 w3.
Proof.
  intros (a1 & b1 & c1 & d1) (a2 & b2 & c2 & d2).
  repeat split; try congruence. lia.
Qed.

Create HintDb store.
#[local] Hint Resolve only_entropy_refl only_entropy_tick : store.

Section LoopFacts.

Context {B : Bcrypt}.

Lemma hash_password_eq p w :
  hash_password p w =
  match hashpw p (gensalt (entropy w)) with
  | inl e => Raise e (tick w)
  | inr h => Return h (tick w)
  end.
Proof.
  unfold hash_password, bind, draw_salt, lift, raise, ret, tick.
  destruct (hashpw p (gensalt (entropy w))); reflexivity.
Qed.

(** The three ways through the loop body. *)
Lemma migrate_row_eq row w :
  migrate_row row w =
  if prefix "$2" (password row) then Return (row, false) w
  else match hashpw (password row) (gensalt (entropy w)) with
       | inl _ => Return (row, false) (tick w)
       | inr h => Return (mkRow (username row) h, true) (tick w)
       end.
Proof.
  unfold migrate_row.
  destruct (prefix "$2" (password row)); simpl; [reflexivity|].
  unfold try_except, bind. rewrite hash_password_eq.
  destruct (hashpw (password row) (gensalt (entropy w))); reflexivity.
Qed.

Lemma migrate_row_spec row w :
  exists r' c w',
    migrate_row row w = Return (r', c) w' /\
    only_entropy w w' /\ row_step row r' /\
    (c = false -> r' = row) /\
    (prefix "$2" (password row) = true -> w' = w).
Proof.
  rewrite migrate_row_eq.
  destruct (prefix "$2" (password row)) eqn:Hp.
  - exists row, false, w. repeat split; auto with store.
  - destruct (hashpw (password row) (gensalt (entropy w))) as [e|h] eqn:Hh.
    + exists row, false, (tick w).
      split; [reflexivity|]. split; [apply only_entropy_tick|].
      repeat split; auto; discriminate.
    + exists (mkRow (username row) h), true, (tick w).
      split; [reflexivity|]. split; [apply only_entropy_tick|].
      repeat split; try discriminate.
      right. split; [exact Hp|]. eexists; exact Hh.
Qed.

Lemma migrate_rows_cons row rest c w :
  migrate_rows (row :: rest) c w =
  match migrate_row row w with
  | Return rc w1 =>
      match migrate_rows rest (c || snd rc) w1 with
      | Return dc w2 => Return (fst rc :: fst dc, snd dc) w2
      | Raise e w2 => Raise e w2
      end
  | Raise e w1 => Raise e w1
  end.
Proof.
  simpl. unfold bind.
  destruct (migrate_row row w); [|reflexivity].
  destruct (migrate_rows rest _ w0); reflexivity.
Qed.

(** The loop never raises; it keeps the usernames and their order, touches
    nothing of the world but the entropy, and reports [changed] exactly when
    it was set before or some row was rewritten. *)
Lemma migrate_rows_spec rows : forall c w,
  exists df' c' w',
    migrate_rows rows c w = Return (df', c') w' /\
    only_entropy w w' /\
    Forall2 row_step rows df' /\
    (c = true -> c' = true) /\
    (c' = false -> df' = rows).
Proof.
  induction rows as [|row rest IH]; intros c w.
  - exists [], c, w. simpl. repeat split; auto with store.
  - rewrite migrate_rows_cons.
    destruct (migrate_row_spec row w) as (r' & c1 & w1 & E1 & O1 & S1 & K1 & _).
    rewrite E1. simpl.
    destruct (IH (c || c1) w1) as (df' & c' & w2 & E2 & O2 & F2 & M2 & K2).
    rewrite E2. simpl.
    exists (r' :: df'), c', w2. split; [reflexivity|].
    split; [eapply only_entropy_trans; eauto|].
    split; [constructor; assumption|].
    split.
    + intros ->. apply M2. reflexivity.
    + intros Hc'. rewrite (K2 Hc'). f_equal. apply K1.
      destruct c1; [|reflexivity].
      rewrite orb_true_r in M2. rewrite M2 in Hc'; [discriminate|reflexivity].
Qed.

Lemma Forall2_row_step_usernames rows df' :
  Forall2 row_step rows df' -> map username df' = map username rows.
Proof.
  induction 1 as [|r r' l l' [Hu _] _ IH]; simpl; [reflexivity|].
  rewrite Hu, IH. reflexivity.
Qed.


(** The loop draws one salt per row without the marker, whether or not the
    hashing then raises, and treats every row by [row_outcome]. *)
Lemma migrate_rows_outcome rows : forall c w,
  exists df' c',
    migrate_rows rows c w = Return (df', c') (add_entropy (legacy_count rows) w)
    /\ Forall2 row_outcome rows df'.
Proof.
  induction rows as [|row rest IH]; intros c w.
  - exists [], c. split; [|constructor].
    destruct w; reflexivity.
  - rewrite migrate_rows_cons, migrate_row_eq.
    unfold legacy_count, row_outcome. cbn [filter]. unfold legacy at 1.
    destruct (prefix "$2" (password row)) eqn:Hp; cbn [negb].
    + destruct (IH (c || false) w) as (df' & c' & E & F).
      cbn [snd fst]. rewrite E.
      exists (row :: df'), c'. split; [reflexivity|].
      constructor; [|exact F]. unfold row_outcome. rewrite Hp. reflexivity.
    + assert (W : forall x, add_entropy (legacy_count rest) (tick x)
                            = add_entropy (S (legacy_count rest)) x).
      { intros x. unfold add_entropy, tick. simpl. f_equal. lia. }
      destruct (hashpw (password row) (gensalt (entropy w))) as [e|h] eqn:Hh.
      * destruct (IH (c || false) (tick w)) as (df' & c' & E & F).
        cbn [snd fst]. rewrite E, W.
        exists (row :: df'), c'. split; [reflexivity|].
        constructor; [|exact F]. unfold row_outcome. rewrite Hp.
        exists (entropy w). rewrite Hh. reflexivity.
      * destruct (IH (c || true) (tick w)) as (df' & c' & E & F).
        cbn [snd fst]. rewrite E, W.
        exists (mkRow (username row) h :: df'), c'. split; [reflexivity|].
        constructor; [|exact F]. unfold row_outcome. rewrite Hp.
        exists (entropy w). rewrite Hh. reflexivity.
Qed.

End LoopFacts.

(** ** The stand-in satisfies the laws *)

Module StandinFacts.
Import Standin.

Lemma take_length n : forall s,
  n <= String.length s -> String.length (take n s) = n.
Proof.
  induction n as [|n IH]; intros [|c s] H; simpl in *; try lia.
  rewrite IH; lia.
Qed.

Lemma take_app_exact n : forall s x,
  n <= String.length s -> take n (take n s ++ x) = take n s.
Proof.
  induction n as [|n IH]; intros [|c s] x H; simpl in *; try lia.
  - destruct x; reflexivity.
  - reflexivity.
  - rewrite IH; [reflexivity|lia].
Qed.

Lemma length_app_ge (a b : string) :
  String.length a <= String.length (a ++ b).
Proof. induction a; simpl; lia. Qed.

Lemma hashpw_inv p s h :
  hashpw p s = inr h ->
  exists v c1 c2 rest,
    s = String "$" (String "2" (String v (String "$"
          (String c1 (String c2 (String "$" rest)))))) /\
    h = String "$" (String "2" (String v (String "$"
          (String c1 (String c2 (String "$"
             (take 22 rest ++ digest p (take 22 rest)))))))) /\
    (72 <? String.length p)%nat = false /\
    is_version v = true /\ is_digit c1 = true /\ is_digit c2 = true /\
    22 <= String.length rest /\
    all_chars in_alphabet (take 22 rest) = true.
Proof.
  unfold hashpw.
  destruct (72 <? String.length p)%nat eqn:Hlen; [discriminate|].
  destruct s as [|d1 [|two [|v [|d2 [|c1 [|c2 [|d3 rest]]]]]]];
    try discriminate.
  match goal with |- (if ?c then _ else _) = _ -> _ =>
    destruct c eqn:Hc end; [|discriminate].
  intros [= <-].
  repeat (apply andb_prop in Hc; destruct Hc as [Hc ?]).
  repeat match goal with
         | H : (_ =? _)%char = true |- _ => apply Ascii.eqb_eq in H; subst
         end.
  exists v, c1, c2, rest.
  repeat split; auto.
  apply Nat.leb_le; assumption.
Qed.

(** A password of at most 72 bytes is accepted with every generated salt. *)
Lemma accepts_short p :
  (72 <? String.length p)%nat = false -> @accepts standin_bcrypt p.
Proof.
  intros Hlen n. simpl. unfold hashpw. rewrite Hlen.
  unfold gensalt. cbn [append]. rewrite !Ascii.eqb_refl.
  assert (A : forall k m, all_chars in_alphabet (salt_chars k m) = true).
  { induction k as [|k IH]; intros m; simpl; [reflexivity|].
    rewrite IH, andb_true_r.
    unfold alpha.
    assert (Hm : m mod 64 < 64) by (apply Nat.mod_upper_bound; lia).
    revert Hm. generalize (m mod 64). intros i Hi.
    do 64 (destruct i as [|i]; [reflexivity|]). lia. }
  assert (L : forall k m, String.length (salt_chars k m) = k).
  { induction k as [|k IH]; intros m; simpl; [reflexivity|].
    rewrite IH. reflexivity. }
  assert (T : take 22 (salt_chars 22 n) = salt_chars 22 n).
  { generalize (L 22 n). generalize (salt_chars 22 n). generalize 22.
    induction n0 as [|k IH]; intros [|c s] E; simpl in *;
      try reflexivity; try discriminate.
    rewrite IH; [reflexivity|lia]. }
  rewrite T, A, L. eexists. reflexivity.
Qed.

Lemma laws : BcryptLaws standin_bcrypt.
Proof.
  split; simpl.
  - intros p s h H.
    destruct (hashpw_inv _ _ _ H)
      as (v & c1 & c2 & rest & -> & -> & Hlen & Hv & H1 & H2 & Hr & Ha).
    reflexivity.
  - intros p s h H.
    destruct (hashpw_inv _ _ _ H)
      as (v & c1 & c2 & rest & -> & -> & Hlen & Hv & H1 & H2 & Hr & Ha).
    unfold hashpw. rewrite Hlen, Hv, H1, H2.
    rewrite !Ascii.eqb_refl. cbn [andb].
    rewrite (take_app_exact 22 rest _ Hr), Ha.
    replace (22 <=? String.length (take 22 rest ++ digest p (take 22 rest)))%nat
      with true; [reflexivity|].
    symmetry. apply Nat.leb_le.
    etransitivity; [|apply length_app_ge].
    rewrite take_length; auto.
  - intros p n m e H.
    destruct (72 <? String.length p)%nat eqn:Hlen.
    + unfold hashpw. rewrite Hlen. eauto.
    + destruct (accepts_short p Hlen n) as (h & Hh).
      simpl in Hh. congruence.
Qed.

End StandinFacts.

(** ** [load_users] *)

Section LoadFacts.

Context {B : Bcrypt}.

Lemma load_users_absent w :
  users_csv w = None -> load_users w = Return [] w.
Proof. unfold load_users. intros ->. reflexivity. Qed.

(** On an existing file, [load_users] returns the frame the loop leaves and
    the file holds exactly that frame afterwards: it was written back when a
    row changed, and it was already there when none did. *)
Lemma load_users_present df w :
  users_csv w = Some df ->
  exists df' c w1,
    migrate_rows df false w = Return (df', c) w1 /\
    only_entropy w w1 /\
    Forall2 row_step df df' /\
    (c = false -> df' = df) /\
    load_users w = Return df' (if c then set_users_csv df' w1 else w1) /\
    users_csv (if c then set_users_csv df' w1 else w1) = Some df'.
Proof.
  intros Hf.
  destruct (migrate_rows_spec df false w)
    as (df' & c & w1 & E & O & F & _ & K).
  exists df', c, w1. repeat split; try assumption; try apply O.
  - unfold load_users, bind. rewrite Hf, E. simpl.
    destruct c; reflexivity.
  - destruct c; [reflexivity|].
    destruct O as (-> & _). rewrite Hf, K; reflexivity.
Qed.

(** [load_users] never raises, and leaves directories and page output as
    they were. *)
Lemma load_users_total w :
  exists df' w',
    load_users w = Return df' w' /\
    user_dirs w' = user_dirs w /\ notices w' = notices w /\
    match users_csv w with
    | None => df' = [] /\ w' = w
    | Some df => Forall2 row_step df df' /\ users_csv w' = Some df'
    end.
Proof.
  destruct (users_csv w) as [df|] eqn:Hf.
  - destruct (load_users_present df w Hf)
      as (df' & c & w1 & _ & (_ & Hd & Hn & _) & F & _ & E & Hc).
    exists df', (if c then set_users_csv df' w1 else w1).
    repeat split; try assumption; destruct c; simpl; assumption.
  - exists [], w. rewrite (load_users_absent w Hf). auto.
Qed.

End LoadFacts.

(** ** Claims *)

Section Claims.

Context {B : Bcrypt}.

(** C7. With [users.csv] absent, or present with the header row only,
    [load_users] returns the empty frame (columns [username] and
    [password], no rows) and raises nothing; the world is left as it
    was. *)
Theorem load_users_empty (dirs : list string) (n : nat) (out : list Notice) :
  load_users (mkWorld None dirs n out) = Return [] (mkWorld None dirs n out)
  /\
  load_users (mkWorld (Some []) dirs n out)
  = Return [] (mkWorld (Some []) dirs n out).
Proof. split; reflexivity. Qed.

(** What [login_user] does once the table is loaded. *)
Lemma login_user_eq user passwd w :
  login_user user passwd w =
  match load_users w with
  | Return users w' =>
      match select_user user users with
      | r :: _ =>
          match checkpw passwd (password r) with
          | inl e => Raise e w'
          | inr ok => Return ok w'
          end
      | [] => Return false w'
      end
  | Raise e w' => Raise e w'
  end.
Proof.
  unfold login_user, bind.
  destruct (load_users w) as [users w'|]; [|reflexivity].
  destruct (select_user user users) as [|r l]; [reflexivity|].
  unfold check_password, lift.
  destruct (checkpw passwd (password r)) as [e|[|]]; reflexivity.
Qed.

Lemma select_user_first user users :
  first_match user users = hd_error (select_user user users).
Proof.
  unfold first_match, select_user.
  induction users as [|r l IH]; simpl; [reflexivity|].
  destruct (username r =? user); [reflexivity|exact IH].
Qed.

(** C2 (as amended). [check_password] is [bcrypt.checkpw] with no handler
    around it.  When hashing the password with the stored string as salt
    gives a string, the result is whether that string is the stored one;
    when the hasher rejects the stored string, the exception reaches the
    caller of [check_password], and the caller of [login_user] when that
    string is the field of the first row with the username. *)
Theorem check_password_outcome (passwd hashed : string) (w : World) :
  (forall r, hashpw passwd hashed = inr r ->
             check_password passwd hashed w = Return (r =? hashed) w) /\
  (forall e,
      hashpw passwd hashed = inl e ->
      check_password passwd hashed w = Raise e w /\
      (forall user users w0 row,
          load_users w0 = Return users w ->
          first_match user users = Some row ->
          password row = hashed ->
          login_user user passwd w0 = Raise e w)).
Proof.
  split.
  - intros r H. unfold check_password, checkpw. rewrite H. reflexivity.
  - intros e H. split.
    + unfold check_password, checkpw. rewrite H. reflexivity.
    + intros user users w0 r E F <-.
      rewrite login_user_eq, E.
      rewrite select_user_first in F.
      destruct (select_user user users) as [|r0 l]; [discriminate|].
      injection F as ->. unfold checkpw. rewrite H. reflexivity.
Qed.


End Claims.

(** Witness of C2 (as amended): a stored field that is no bcrypt string. *)
Lemma check_password_outcome_witness :
  @check_password standin_bcrypt "hunter2" "not-a-hash" (world0 None)
  = Raise Standin.invalid_salt (world0 None).
Proof.
  apply (proj2 (@check_password_outcome standin_bcrypt "hunter2"
                  "not-a-hash" (world0 None)) Standin.invalid_salt).
  reflexivity.
Defined.

(** C2, counterexample: verification against a field that is not a bcrypt
    string raises instead of returning false, and a stored row with such a
    field that carries the marker makes [login_user] raise. *)
Lemma check_password_raises_on_malformed :
  @check_password standin_bcrypt "hunter2" "not-a-hash" (world0 None)
    <> Return false (world0 None)
  /\
  @login_user standin_bcrypt "alice" "hunter2"
     (world0 (Some [mkRow "alice" "$2garbage"]))
  = Raise (ValueError "Invalid salt")
      (world0 (Some [mkRow "alice" "$2garbage"])).
Proof. split; [discriminate|reflexivity]. Qed.


(** ** [register_user] *)

Section RegisterFacts.

Context {B : Bcrypt}.

Lemma register_user_eq user passwd w :
  register_user user passwd w =
  match load_users w with
  | Return users w1 =>
      if username_in user users then Return false (warned w1)
      else match hashpw passwd (gensalt (entropy w1)) with
           | inl e => Raise e (tick w1)
           | inr h => Return true (registered user h users w1)
           end
  | Raise e w1 => Raise e w1
  end.
Proof.
  unfold register_user, bind.
  destruct (load_users w) as [users w1|]; [|reflexivity].
  destruct (username_in user users); [reflexivity|].
  rewrite hash_password_eq.
  destruct (hashpw passwd (gensalt (entropy w1))); reflexivity.
Qed.

Lemma username_in_iff user users :
  username_in user users = true <-> In user (map username users).
Proof.
  unfold username_in. rewrite existsb_exists. split.
  - intros (x & Hx & E). apply String.eqb_eq in E. subst. exact Hx.
  - intros H. exists user. split; [exact H|apply String.eqb_refl].
Qed.

Lemma username_in_false user users :
  ~ In user (map username users) -> username_in user users = false.
Proof.
  intros H. destruct (username_in user users) eqn:E; [|reflexivity].
  apply username_in_iff in E. contradiction.
Qed.

(** [load_users] returns the usernames of the persisted table, in order, and
    persists nothing else. *)
Lemma load_users_usernames w :
  exists users w1,
    load_users w = Return users w1 /\
    map username users = map username (stored w) /\
    map username (stored w1) = map username (stored w) /\
    user_dirs w1 = user_dirs w /\ notices w1 = notices w.
Proof.
  destruct (load_users_total w) as (users & w1 & E & Hd & Hn & H).
  exists users, w1. unfold stored.
  destruct (users_csv w) as [df|] eqn:Hf.
  - destruct H as (F & ->).
    pose proof (Forall2_row_step_usernames _ _ F).
    repeat split; assumption.
  - destruct H as (-> & ->). rewrite Hf. repeat split; auto.
Qed.

(** Registration of a username the table does not hold, with a password the
    hasher accepts. *)
Lemma register_new user passwd w :
  ~ In user (map username (stored w)) ->
  accepts passwd ->
  exists users w1 h,
    load_users w = Return users w1 /\
    map username users = map username (stored w) /\
    hashpw passwd (gensalt (entropy w1)) = inr h /\
    register_user user passwd w = Return true (registered user h users w1).
Proof.
  intros Hnew Hacc.
  destruct (load_users_usernames w) as (users & w1 & E & Hu & _).
  destruct (Hacc (entropy w1)) as (h & Hh).
  exists users, w1, h. repeat split; try assumption.
  rewrite register_user_eq, E, username_in_false, Hh; [reflexivity|].
  rewrite Hu. exact Hnew.
Qed.



End RegisterFacts.


(** ** Loading a table row by row *)

Section SplitFacts.

Context {B : Bcrypt}.

Lemma row_outcome_step r r' : row_outcome r r' -> row_step r r'.
Proof.
  unfold row_outcome, row_step.
  destruct (prefix "$2" (password r)) eqn:Hp.
  - intros ->. auto.
  - intros (n & H).
    destruct (hashpw (password r) (gensalt n)) as [e|h] eqn:Hh; subst.
    + auto.
    + split; [reflexivity|]. right. split; [reflexivity|].
      exists (gensalt n). exact Hh.
Qed.

Lemma row_outcome_marked r r' :
  row_outcome r r' -> prefix "$2" (password r) = true -> r' = r.
Proof. unfold row_outcome. intros H Hp. rewrite Hp in H. exact H. Qed.


Lemma Forall2_row_outcome_usernames rows df' :
  Forall2 row_outcome rows df' -> map username df' = map username rows.
Proof.
  intros F. apply Forall2_row_step_usernames.
  induction F; constructor; auto using row_outcome_step.
Qed.

(** [load_users] on an existing file, row by row. *)
Lemma load_users_outcome df w :
  users_csv w = Some df ->
  exists df' w',
    load_users w = Return df' w' /\
    users_csv w' = Some df' /\
    Forall2 row_outcome df df'.
Proof.
  intros Hf.
  destruct (load_users_present df w Hf)
    as (df' & c & w1 & E & _ & _ & _ & L & P).
  destruct (migrate_rows_outcome df false w) as (df2 & c2 & E2 & F).
  rewrite E in E2. injection E2 as -> -> _.
  eauto.
Qed.

Lemma load_users_split pre row post w :
  users_csv w = Some (pre ++ row :: post) ->
  exists pre' row' post' w',
    load_users w = Return (pre' ++ row' :: post') w' /\
    users_csv w' = Some (pre' ++ row' :: post') /\
    Forall2 row_outcome pre pre' /\
    row_outcome row row' /\
    Forall2 row_outcome post post'.
Proof.
  intros Hf.
  destruct (load_users_outcome _ w Hf) as (df' & w' & E & P & F).
  apply Forall2_app_inv_l in F.
  destruct F as (pre' & tl & F1 & F2 & ->).
  inversion F2 as [|? row' ? post' R F3]; subst.
  exists pre', row', post', w'. auto.
Qed.

Lemma first_match_split user pre row post :
  ~ In user (map username pre) ->
  username row = user ->
  first_match user (pre ++ row :: post) = Some row.
Proof.
  unfold first_match. intros Hn Hu.
  induction pre as [|r l IH]; simpl in *.
  - rewrite Hu, String.eqb_refl. reflexivity.
  - destruct (username r =? user) eqn:E.
    + apply String.eqb_eq in E. tauto.
    + apply IH. tauto.
Qed.

(** [login_user] once the loaded frame and its first matching row are
    known. *)
Lemma login_user_first user passwd w users w' r b :
  load_users w = Return users w' ->
  first_match user users = Some r ->
  checkpw passwd (password r) = inr b ->
  login_user user passwd w = Return b w'.
Proof.
  intros E F C. rewrite login_user_eq, E.
  rewrite select_user_first in F.
  destruct (select_user user users) as [|r0 l]; [discriminate|].
  injection F as ->. rewrite C. reflexivity.
Qed.

Context {L : BcryptLaws B}.

(** A password verifies against every hash made from it. *)
Lemma checkpw_hashpw p s h : hashpw p s = inr h -> checkpw p h = inr true.
Proof.
  intros H. unfold checkpw.
  rewrite (hashpw_rehash _ _ _ H), String.eqb_refl. reflexivity.
Qed.

(** C1 (as amended). For a plain username that the persisted table does
    not hold and a password the hasher accepts, [register_user] returns
    true, and [login_user] with the same username and password returns true
    afterwards. *)
Theorem register_then_login (user passwd : string) (w : World) :
  plain_name user = true ->
  ~ In user (map username (stored w)) ->
  accepts passwd ->
  exists w1 w2,
    register_user user passwd w = Return true w1 /\
    login_user user passwd w1 = Return true w2.
Proof.
  intros _ Hnew Hacc.
  destruct (register_new user passwd w Hnew Hacc)
    as (users & wl & h & _ & Hu & Hh & R).
  destruct (load_users_split users (mkRow user h) []
              (registered user h users wl) eq_refl)
    as (pre' & row' & post' & w2 & E & _ & F1 & R1 & F2).
  inversion F2; subst.
  apply row_outcome_marked in R1;
    [subst row'|exact (hashpw_marker _ _ _ Hh)].
  exists (registered user h users wl), w2. split; [exact R|].
  refine (login_user_first _ _ _ _ _ (mkRow user h) _ E _
            (checkpw_hashpw _ _ _ Hh)).
  apply first_match_split; [|reflexivity].
  rewrite (Forall2_row_outcome_usernames _ _ F1), Hu. exact Hnew.
Qed.


(** A row that [load_users] has treated is treated the same way by the next
    [load_users]: nothing is left to migrate, or the hasher rejects the
    field again. *)
Lemma row_outcome_stable r r' r'' :
  row_outcome r r' -> row_outcome r' r'' -> r'' = r'.
Proof.
  unfold row_outcome at 1.
  destruct (prefix "$2" (password r)) eqn:Hp.
  - intros -> H. exact (row_outcome_marked _ _ H Hp).
  - intros (n & H).
    destruct (hashpw (password r) (gensalt n)) as [e|h] eqn:Hh; subst r'.
    + unfold row_outcome. rewrite Hp. intros (m & H).
      destruct (hashpw_reject _ n m e Hh) as (e' & He').
      rewrite He' in H. exact H.
    + intros H. apply (row_outcome_marked _ _ H).
      exact (hashpw_marker _ _ _ Hh).
Qed.

Lemma Forall2_row_outcome_stable df df' : forall df'',
  Forall2 row_outcome df df' -> Forall2 row_outcome df' df'' -> df'' = df'.
Proof.
  intros df'' F. revert df''.
  induction F as [|r r' l l' R _ IH]; intros df'' F'; inversion F'; subst.
  - reflexivity.
  - f_equal; [eapply row_outcome_stable; eassumption|auto].
Qed.

(** Loading a table whose last row is a registered user's. *)
Lemma load_users_registered pre user h w :
  users_csv w = Some (pre ++ [mkRow user h]) ->
  prefix "$2" h = true ->
  ~ In user (map username pre) ->
  exists pre' w',
    load_users w = Return (pre' ++ [mkRow user h]) w' /\
    users_csv w' = Some (pre' ++ [mkRow user h]) /\
    ~ In user (map username pre') /\
    first_match user (pre' ++ [mkRow user h]) = Some (mkRow user h) /\
    notices w' = notices w.
Proof.
  intros Hf Hm Hnew.
  destruct (load_users_split pre (mkRow user h) [] w Hf)
    as (pre' & row' & post' & w' & E & P & F1 & R1 & F2).
  inversion F2; subst.
  apply row_outcome_marked in R1; [subst row'|exact Hm].
  assert (Hnew' : ~ In user (map username pre'))
    by (rewrite (Forall2_row_outcome_usernames _ _ F1); exact Hnew).
  exists pre', w'. repeat split; try assumption.
  - apply first_match_split; [exact Hnew'|reflexivity].
  - destruct (load_users_total w) as (x & y & E' & _ & Hn & _).
    rewrite E in E'. injection E' as _ <-. exact Hn.
Qed.

(** C3 (as amended). On a table whose cells are read back as written,
    registering a username that the table holds returns false and does what
    [load_users] does, then shows the warning: no row is appended, every
    stored row stays in place with migration rewrites only, and the file is
    unchanged when every stored field carries the marker.  After a first
    registration of a new plain username with a password the hasher
    accepts, a second one returns false and leaves the stored hash as it
    was; login with the first password returns true, and login with the
    second returns false when the second password does not verify against
    the stored hash. *)
Theorem register_existing_username (user : string) (w : World) :
  (forall passwd,
      text_table (stored w) ->
      In user (map username (stored w)) ->
      exists users w1,
        load_users w = Return users w1 /\
        register_user user passwd w = Return false (warned w1) /\
        Forall2 row_outcome (stored w) (stored (warned w1)) /\
        (Forall (fun r => prefix "$2" (password r) = true) (stored w) ->
         users_csv (warned w1) = users_csv w)) /\
  (forall p1 p2,
      plain_name user = true ->
      ~ In user (map username (stored w)) ->
      accepts p1 ->
      exists h w1 w2,
        register_user user p1 w = Return true w1 /\
        first_match user (stored w1) = Some (mkRow user h) /\
        register_user user p2 w1 = Return false w2 /\
        first_match user (stored w2) = Some (mkRow user h) /\
        (exists w3, login_user user p1 w2 = Return true w3) /\
        (checkpw p2 h = inr false ->
         exists w3, login_user user p2 w2 = Return false w3)).
Proof.
  split.
  - intros passwd _ Hin.
    destruct (users_csv w) as [df|] eqn:Hf;
      [|unfold stored in Hin; rewrite Hf in Hin; destruct Hin].
    assert (Hs : stored w = df) by (unfold stored; rewrite Hf; reflexivity).
    destruct (load_users_outcome df w Hf) as (users & w1 & E & P & F).
    exists users, w1. split; [exact E|].
    assert (Hs1 : stored (warned w1) = users)
      by (unfold stored; simpl; rewrite P; reflexivity).
    split; [|split].
    + rewrite register_user_eq, E.
      replace (username_in user users) with true; [reflexivity|].
      symmetry. apply username_in_iff.
      rewrite (Forall2_row_outcome_usernames _ _ F), <- Hs. exact Hin.
    + rewrite Hs, Hs1. exact F.
    + rewrite Hs. intros Hm. simpl. rewrite P. f_equal.
      clear -F Hm. induction F as [|r r' l l' R _ IH]; [reflexivity|].
      inversion Hm; subst.
      f_equal; [apply (row_outcome_marked _ _ R); assumption|auto].
  - intros p1 p2 _ Hnew Hacc.
    destruct (register_new user p1 w Hnew Hacc)
      as (users & wl & h & _ & Hu & Hh & R).
    pose proof (hashpw_marker _ _ _ Hh) as Hm.
    assert (Hnew0 : ~ In user (map username users))
      by (rewrite Hu; exact Hnew).
    set (w1 := registered user h users wl) in *.
    destruct (load_users_registered users user h w1 eq_refl Hm Hnew0)
      as (pre1 & w1' & E1 & P1 & Hnew1 & FM1 & _).
    destruct (load_users_registered pre1 user h (warned w1') P1 Hm Hnew1)
      as (pre2 & w3 & E2 & P2 & Hnew2 & FM2 & _).
    exists h, w1, (warned w1').
    split; [exact R|].
    split; [apply first_match_split; [exact Hnew0|reflexivity]|].
    split.
    { rewrite register_user_eq, E1.
      replace (username_in user (pre1 ++ [mkRow user h])) with true;
        [reflexivity|].
      symmetry. apply username_in_iff. rewrite map_app.
      apply in_or_app. right. left. reflexivity. }
    split; [unfold stored; simpl; rewrite P1; exact FM1|].
    split.
    + exists w3.
      exact (login_user_first _ _ _ _ _ _ _ E2 FM2 (checkpw_hashpw _ _ _ Hh)).
    + intros Hc. exists w3.
      exact (login_user_first _ _ _ _ _ _ _ E2 FM2 Hc).
Qed.

End SplitFacts.

(** Witness of C1 (as amended): the first registration of a deployment. *)
Lemma register_then_login_witness :
  exists w1 w2,
    @register_user standin_bcrypt "bob" "pw1" (world0 None) = Return true w1
    /\ @login_user standin_bcrypt "bob" "pw1" w1 = Return true w2.
Proof.
  apply (@register_then_login standin_bcrypt StandinFacts.laws
           "bob" "pw1" (world0 None)).
  - reflexivity.
  - simpl. intros [].
  - apply StandinFacts.accepts_short. reflexivity.
Defined.

(** C1, counterexample: with a password the hasher rejects, registration
    of a new username does not return: the hasher's exception reaches the
    caller and no account is made. *)
Lemma register_raises_on_rejected_password :
  exists e w',
    @register_user standin_bcrypt "bob" long_password (world0 None)
    = Raise e w' /\
    stored w' = [].
Proof. do 2 eexists. split; reflexivity. Qed.



(** C3, counterexample: registering a username whose stored row is a legacy
    one returns false and yet rewrites the persisted table, the stored field
    of that user included. *)
Lemma register_existing_rewrites_table :
  exists w',
    @register_user standin_bcrypt "alice" "other"
       (world0 (Some [mkRow "alice" "hunter2"]))
    = Return false w' /\
    users_csv w' <> Some [mkRow "alice" "hunter2"] /\
    first_match "alice" (stored w') <> Some (mkRow "alice" "hunter2").
Proof.
  eexists. split; [reflexivity|]. split; vm_compute; discriminate.
Qed.

(** Witness of C3 (as amended): two registrations of one username. *)
Lemma register_existing_username_witness :
  exists h w1 w2,
    @register_user standin_bcrypt "bob" "pw1" (world0 None) = Return true w1
    /\ first_match "bob" (stored w1) = Some (mkRow "bob" h)
    /\ @register_user standin_bcrypt "bob" "pw2" w1 = Return false w2
    /\ first_match "bob" (stored w2) = Some (mkRow "bob" h)
    /\ (exists w3, @login_user standin_bcrypt "bob" "pw1" w2 = Return true w3)
    /\ (exists w3, @login_user standin_bcrypt "bob" "pw2" w2
                   = Return false w3).
Proof.
  destruct (proj2 (@register_existing_username standin_bcrypt
                     StandinFacts.laws "bob" (world0 None)) "pw1" "pw2"
              eq_refl (fun H : In "bob" [] => H)
              (StandinFacts.accepts_short "pw1" eq_refl))
    as (h & w1 & w2 & R1 & F1 & R2 & F2 & L1 & L2).
  exists h, w1, w2.
  repeat (split; [assumption|]).
  apply L2.
  vm_compute in R1. injection R1 as <-.
  vm_compute in F1. injection F1 as <-.
  vm_compute. reflexivity.
Defined.

(** The scenario of two registrations, run on the stand-in: the second
    returns false, login with the second password returns false, login with
    the first returns true. *)
Example bob_registers_twice :
  let run := @outcome_world bool in
  let w1 := run (@register_user standin_bcrypt "bob" "pw1" (world0 None)) in
  let r2 := @register_user standin_bcrypt "bob" "pw2" w1 in
  (exists w2, r2 = Return false w2) /\
  (exists w3, @login_user standin_bcrypt "bob" "pw2" (run r2)
              = Return false w3) /\
  (exists w3, @login_user standin_bcrypt "bob" "pw1" (run r2)
              = Return true w3).
Proof. repeat split; eexists; vm_compute; reflexivity. Qed.


(** The scenario of a legacy row, run on the stand-in: loading rewrites the
    field to a string with the marker and persists it; login with the stored
    plaintext returns true, login with another password returns false. *)
Example alice_is_migrated :
  let w := world0 (Some [mkRow "alice" "hunter2"]) in
  (exists h w1,
      @load_users standin_bcrypt w = Return [mkRow "alice" h] w1 /\
      prefix "$2" h = true /\ users_csv w1 = Some [mkRow "alice" h]) /\
  (exists w1, @login_user standin_bcrypt "alice" "hunter2" w
              = Return true w1) /\
  (exists w1, @login_user standin_bcrypt "alice" "wrong" w
              = Return false w1).
Proof.
  repeat split; repeat eexists; vm_compute; reflexivity.
Qed.

(** * Further properties of the account store *)

Section StoreFacts.

Context {B : Bcrypt}.

Lemma migrate_rows_marked rows : forall c w,
  all_marked rows -> migrate_rows rows c w = Return (rows, c) w.
Proof.
  induction rows as [|row rest IH]; intros c w Hm; [reflexivity|].
  inversion Hm as [|? ? Hp Hrest]; subst.
  rewrite migrate_rows_cons, migrate_row_eq, Hp. cbn [snd fst].
  rewrite orb_false_r, (IH _ _ Hrest). reflexivity.
Qed.

Lemma load_users_marked w :
  all_marked (stored w) -> load_users w = Return (stored w) w.
Proof.
  unfold stored, load_users. destruct (users_csv w) as [df|]; intros Hm.
  - unfold bind. rewrite (migrate_rows_marked _ _ _ Hm). reflexivity.
  - reflexivity.
Qed.

(** The salts [load_users] draws: one per stored field without the
    marker. *)
Lemma load_users_entropy w :
  exists users w1,
    load_users w = Return users w1 /\
    entropy w1 = legacy_count (stored w) + entropy w /\
    Forall2 row_outcome (stored w) users /\
    stored w1 = users /\
    user_dirs w1 = user_dirs w /\ notices w1 = notices w.
Proof.
  unfold stored, load_users. destruct (users_csv w) as [df|] eqn:Hf.
  - destruct (migrate_rows_outcome df false w) as (df' & c & E & F).
    unfold bind. rewrite E. cbn [snd fst].
    destruct c; cbn.
    + exists df', (set_users_csv df' (add_entropy (legacy_count df) w)).
      repeat split; auto.
    + exists df', (add_entropy (legacy_count df) w).
      repeat split; auto.
      destruct (migrate_rows_spec df false w) as (d2 & c2 & w2 & E2 & _ & _ & _ & K).
      rewrite E in E2. injection E2 as <- <- _.
      cbn. rewrite Hf, (K eq_refl). reflexivity.
  - exists [], w. rewrite Hf. repeat split; auto.
Qed.


(** X3. On a table whose fields all carry the marker, and on a deployment
    without [users.csv], [login_user] is a pure query: whatever it returns
    or raises, the world is left exactly as it was, and the file is not
    created. *)
Theorem login_user_reads_only (user passwd : string) (w : World) :
  all_marked (stored w) ->
  outcome_world (login_user user passwd w) = w /\
  (users_csv w = None -> login_user user passwd w = Return false w).
Proof.
  intros Hm. rewrite login_user_eq, (load_users_marked w Hm). split.
  - destruct (select_user user (stored w)) as [|r l]; [reflexivity|].
    destruct (checkpw passwd (password r)); reflexivity.
  - intros Hf. unfold stored. rewrite Hf. reflexivity.
Qed.

(** X6. [get_user_path] is idempotent: once a call has returned, the
    directory is there, and a second call returns the same path and changes
    nothing.  A call never removes a directory. *)
Theorem get_user_path_idempotent (user path : string) (w w1 : World) :
  get_user_path user w = Return path w1 ->
  path = path_join USER_DIR user /\
  In path (user_dirs w1) /\
  get_user_path user w1 = Return path w1 /\
  incl (user_dirs w) (user_dirs w1).
Proof.
  unfold get_user_path, bind, makedirs, ret. cbn.
  intros [= <- <-]. cbn.
  set (path := path_join USER_DIR user).
  destruct (existsb (String.eqb path) (user_dirs w)) eqn:Hex.
  - rewrite Hex.
    apply existsb_exists in Hex. destruct Hex as (x & Hx & Heq).
    apply String.eqb_eq in Heq. subst x.
    repeat split; auto using incl_refl.
  - assert (Hin : In path (user_dirs w ++ [path]))
      by (apply in_or_app; right; left; reflexivity).
    assert (Hex' : existsb (String.eqb path) (user_dirs w ++ [path]) = true).
    { apply existsb_exists. exists path. split; [exact Hin|].
      apply String.eqb_refl. }
    rewrite Hex'. repeat split; auto using incl_appl, incl_refl.
Qed.

(** X7. A registration that goes through makes the user's directory. The
    directory is [users/<username>], except for a username that starts with
    a slash: [os.path.join] then drops [users] and the directory made is the
    username itself. *)
Theorem register_user_makes_directory (user passwd : string) (w w' : World) :
  register_user user passwd w = Return true w' ->
  In (path_join USER_DIR user) (user_dirs w') /\
  (prefix "/" user = true -> path_join USER_DIR user = user) /\
  (prefix "/" user = false -> path_join USER_DIR user = ("users/" ++ user)%string).
Proof.
  intros R. split; [|split].
  - rewrite register_user_eq in R.
    destruct (load_users w) as [users w1|]; [|discriminate].
    destruct (username_in user users); [discriminate|].
    destruct (hashpw passwd (gensalt (entropy w1))); [discriminate|].
    injection R as <-. cbn.
    destruct (existsb _ (user_dirs w1)) eqn:Hex.
    + apply existsb_exists in Hex. destruct Hex as (x & Hx & Heq).
      apply String.eqb_eq in Heq. subst x. exact Hx.
    + apply in_or_app. right. left. reflexivity.
  - intros H. unfold path_join. rewrite H. reflexivity.
  - intros H. unfold path_join. rewrite H. reflexivity.
Qed.

(** X8. A "Create Account" press whose form is incomplete or whose two
    passwords differ only shows a warning: [register_user] is not called, so
    the account file is neither extended nor migrated, no salt is drawn and
    no directory is made. *)
Theorem create_account_rejected_form (new_user new_pass confirm_pass : string)
    (w : World) :
  new_user = "" \/ new_pass = "" \/ new_pass <> confirm_pass ->
  exists msg,
    create_account new_user new_pass confirm_pass w
    = Return tt (mkWorld (users_csv w) (user_dirs w) (entropy w)
                         (notices w ++ [Warning msg])).
Proof.
  intros H. unfold create_account.
  destruct ((new_user =? "") || (new_pass =? "")) eqn:He.
  - eexists. reflexivity.
  - destruct (new_pass =? confirm_pass) eqn:Hc; cbn [negb].
    + exfalso. apply orb_false_iff in He. destruct He as (H1 & H2).
      apply String.eqb_neq in H1, H2. apply String.eqb_eq in Hc.
      destruct H as [H|[H|H]]; contradiction.
    + eexists. reflexivity.
Qed.

End StoreFacts.

Section LoginFacts.

Context {B : Bcrypt}.

Lemma first_match_none user df :
  first_match user df = None <-> ~ In user (map username df).
Proof.
  unfold first_match. induction df as [|r l IH]; simpl.
  - tauto.
  - destruct (username r =? user) eqn:E.
    + apply String.eqb_eq in E. split; [discriminate|]. tauto.
    + apply String.eqb_neq in E. rewrite IH. tauto.
Qed.

Lemma first_match_username user df r :
  first_match user df = Some r -> username r = user.
Proof.
  unfold first_match. intros H. apply find_some in H.
  apply String.eqb_eq. exact (proj2 H).
Qed.

(** X21. On a persisted table whose cells are read back as written,
    [login_user] answers from the table [load_users] returns and
    leaves in the file, which is the stored table with migration rewrites
    only (the stored table itself when every field carries the marker).  It
    returns true exactly when that table has a row with the username and
    the password verifies against the field of the first such row; it
    returns false when the stored table has no row with the username, and
    false when verification against the first such row returns false: the
    same result for both causes. *)
Theorem login_user_iff (user passwd : string) (w : World) :
  text_table (stored w) ->
  exists users w',
    load_users w = Return users w' /\
    Forall2 row_outcome (stored w) users /\
    stored w' = users /\
    (all_marked (stored w) -> users = stored w /\ w' = w) /\
    (login_user user passwd w = Return true w' <->
     exists r, first_match user users = Some r /\
               username r = user /\
               checkpw passwd (password r) = inr true) /\
    (first_match user (stored w) = None ->
     login_user user passwd w = Return false w') /\
    (forall r, first_match user users = Some r ->
               checkpw passwd (password r) = inr false ->
               login_user user passwd w = Return false w').
Proof.
  intros _.
  destruct (load_users_entropy w) as (users & w' & E & _ & F & Hs & _).
  exists users, w'. split; [exact E|]. split; [exact F|].
  split; [exact Hs|]. split.
  { intros Hm. rewrite (load_users_marked w Hm) in E.
    injection E as <- <-. auto. }
  assert (Hnone : first_match user (stored w) = None ->
                  first_match user users = None).
  { rewrite !first_match_none.
    assert (Hu : map username users = map username (stored w)).
    { clear -F. induction F as [|r r' l l' R _ IH]; [reflexivity|].
      cbn. rewrite IH. f_equal.
      unfold row_outcome in R.
      destruct (prefix "$2" (password r)); [congruence|].
      destruct R as (n & R).
      destruct (hashpw (password r) (gensalt n)); subst; reflexivity. }
    rewrite Hu. tauto. }
  rewrite login_user_eq, E.
  split; [|split].
  - split.
    + intros H.
      destruct (select_user user users) as [|r l] eqn:Hsel; [discriminate|].
      assert (Hf : first_match user users = Some r)
        by (rewrite select_user_first, Hsel; reflexivity).
      exists r. split; [exact Hf|].
      split; [exact (first_match_username _ _ _ Hf)|].
      destruct (checkpw passwd (password r)) as [e|b]; [discriminate|].
      injection H as ->. reflexivity.
    + intros (r & Hf & _ & Hc).
      rewrite select_user_first in Hf.
      destruct (select_user user users) as [|r0 l]; [discriminate|].
      injection Hf as ->. rewrite Hc. reflexivity.
  - intros H. apply Hnone in H. rewrite select_user_first in H.
    destruct (select_user user users); [reflexivity|discriminate].
  - intros r Hf Hc. rewrite select_user_first in Hf.
    destruct (select_user user users) as [|r0 l]; [discriminate|].
    injection Hf as ->. rewrite Hc. reflexivity.
Qed.

End LoginFacts.

(** Witness of X21: a table with one migrated row. *)
Lemma login_user_iff_witness :
  exists users w',
    @load_users standin_bcrypt alice_world = Return users w' /\
    Forall2 (@row_outcome standin_bcrypt) (stored alice_world) users /\
    stored w' = users /\
    (all_marked (stored alice_world) ->
     users = stored alice_world /\ w' = alice_world) /\
    (@login_user standin_bcrypt "alice" "hunter2" alice_world
     = Return true w' <->
     exists r, first_match "alice" users = Some r /\
               username r = "alice" /\
               @checkpw standin_bcrypt "hunter2" (password r) = inr true) /\
    (first_match "alice" (stored alice_world) = None ->
     @login_user standin_bcrypt "alice" "hunter2" alice_world
     = Return false w') /\
    (forall r, first_match "alice" users = Some r ->
               @checkpw standin_bcrypt "hunter2" (password r) = inr false ->
               @login_user standin_bcrypt "alice" "hunter2" alice_world
               = Return false w').
Proof.
  apply (@login_user_iff standin_bcrypt "alice" "hunter2" alice_world).
  repeat constructor.
Defined.

Section StoreLaws.

Context {B : Bcrypt} {L : BcryptLaws B}.

Lemma settled_loaded df users : Forall2 row_outcome df users -> settled users.
Proof.
  intros F df' F'. exact (Forall2_row_outcome_stable _ _ _ F F').
Qed.

Lemma settled_marked df : all_marked df -> settled df.
Proof.
  intros Hm df' F. induction F as [|r r' l l' R _ IH]; [reflexivity|].
  inversion Hm; subst.
  f_equal; [apply (row_outcome_marked _ _ R); assumption|auto].
Qed.

Lemma settled_app a b : settled a -> settled b -> settled (a ++ b).
Proof.
  intros Ha Hb df' F. apply Forall2_app_inv_l in F.
  destruct F as (a' & b' & Fa & Fb & ->).
  rewrite (Ha _ Fa), (Hb _ Fb). reflexivity.
Qed.

(** [load_users] on a settled table returns it and leaves it in the
    file. *)
Lemma load_users_settled w :
  settled (stored w) ->
  exists w', load_users w = Return (stored w) w' /\ stored w' = stored w.
Proof.
  intros Hs.
  destruct (load_users_entropy w) as (users & w1 & E & _ & F & Hs1 & _).
  rewrite (Hs _ F) in *. eauto.
Qed.

(** X2. On a table whose cells are read back as written, after
    [load_users] the returned frame is the persisted one, and each of its
    fields either carries the marker of the hash family or is a value on
    which the hasher raises. *)
Theorem load_users_leaves_no_plaintext (w : World) :
  text_table (stored w) ->
  exists users w1,
    load_users w = Return users w1 /\
    stored w1 = users /\
    Forall hashed_or_rejected users.
Proof.
  intros _.
  destruct (load_users_entropy w) as (users & w1 & E & _ & F & Hs & _).
  exists users, w1. split; [exact E|]. split; [exact Hs|].
  clear -F L. induction F as [|r r' l l' R _ IH]; constructor; [|exact IH].
  unfold row_outcome in R. unfold hashed_or_rejected.
  destruct (prefix "$2" (password r)) eqn:Hp.
  - subst. auto.
  - destruct R as (n & R).
    destruct (hashpw (password r) (gensalt n)) as [e|h] eqn:Hh; subst.
    + right. eauto.
    + left. exact (hashpw_marker _ _ _ Hh).
Qed.


(** X5. [login_user] can be repeated: on the world a login leaves, the
    same username and password get the same answer. *)
Theorem login_user_repeatable (user passwd : string) (w : World) :
  outcome_result (login_user user passwd
                    (outcome_world (login_user user passwd w)))
  = outcome_result (login_user user passwd w).
Proof.
  destruct (load_users_entropy w) as (users & w1 & E & _ & F & Hs1 & _).
  assert (Hw : outcome_world (login_user user passwd w) = w1).
  { rewrite login_user_eq, E.
    destruct (select_user user users) as [|r l]; [reflexivity|].
    destruct (checkpw passwd (password r)); reflexivity. }
  rewrite Hw.
  assert (Hs : settled (stored w1))
    by (rewrite Hs1; exact (settled_loaded _ _ F)).
  destruct (load_users_settled _ Hs) as (w3 & E3 & _).
  rewrite !login_user_eq, E, E3, Hs1.
  destruct (select_user user users) as [|r l]; [reflexivity|].
  destruct (checkpw passwd (password r)); reflexivity.
Qed.

End StoreLaws.

(** * The login screen *)

Section ScreenFacts.

Context {B : Bcrypt}.

(** No operation of the account store removes a username from the file. *)
Lemma load_users_keeps_usernames w :
  map username (stored (outcome_world (load_users w)))
  = map username (stored w).
Proof.
  destruct (load_users_usernames w) as (users & w1 & E & _ & Hs & _).
  rewrite E. exact Hs.
Qed.

Lemma login_user_keeps_usernames user passwd w :
  map username (stored (outcome_world (login_user user passwd w)))
  = map username (stored w).
Proof.
  destruct (load_users_usernames w) as (users & w1 & E & _ & Hs & _).
  rewrite login_user_eq, E.
  destruct (select_user user users) as [|r l]; [exact Hs|].
  destruct (checkpw passwd (password r)); exact Hs.
Qed.

Lemma register_user_keeps_usernames user passwd w :
  incl (map username (stored w))
       (map username (stored (outcome_world (register_user user passwd w)))).
Proof.
  destruct (load_users_usernames w) as (users & w1 & E & Hu & Hs & _).
  rewrite register_user_eq, E.
  destruct (username_in user users).
  - cbn [outcome_world]. change (stored (warned w1)) with (stored w1).
    rewrite Hs. apply incl_refl.
  - destruct (hashpw passwd (gensalt (entropy w1))); cbn [outcome_world].
    + change (stored (tick w1)) with (stored w1).
      rewrite Hs. apply incl_refl.
    + change (stored (registered user s users w1))
        with (users ++ [mkRow user s]).
      rewrite map_app, Hu. apply incl_appl, incl_refl.
Qed.

Lemma create_account_keeps_usernames nu np cp w :
  incl (map username (stored w))
       (map username (stored (outcome_world (create_account nu np cp w)))).
Proof.
  unfold create_account.
  destruct ((nu =? "") || (np =? "")); [apply incl_refl|].
  destruct (negb (np =? cp)); [apply incl_refl|].
  pose proof (register_user_keeps_usernames nu np w) as H.
  unfold bind. destruct (register_user nu np w) as [[|] w'|e w']; exact H.
Qed.

(** A login that returns true found a row with the username. *)
Lemma login_user_true_registered user passwd w w' :
  login_user user passwd w = Return true w' ->
  In user (map username (stored w')).
Proof.
  destruct (load_users_entropy w) as (users & w1 & E & _ & _ & Hs & _).
  rewrite login_user_eq, E.
  destruct (select_user user users) as [|r l] eqn:Hsel; [discriminate|].
  assert (Hin : In r (select_user user users)) by (rewrite Hsel; left; auto).
  apply filter_In in Hin. destruct Hin as (Hin & Hu).
  apply String.eqb_eq in Hu.
  destruct (checkpw passwd (password r)) as [e|b]; [discriminate|].
  intros [= -> <-]. rewrite Hs, <- Hu. apply in_map. exact Hin.
Qed.

Lemma login_button_eq user passwd s w :
  login_button user passwd s w =
  match login_user user passwd w with
  | Return true w' =>
      Return (mkStep (mkSession true user) None true)
        (mkWorld (users_csv w') (user_dirs w') (entropy w')
           (notices w' ++
            [Success ("Welcome " ++ user ++ "! Redirecting...")%string]))
  | Return false w' =>
      Return (mkStep s (Some "Invalid username or password.") false) w'
  | Raise e w' => Raise e w'
  end.
Proof.
  unfold login_button, bind.
  destruct (login_user user passwd w) as [[|] w'|e w']; reflexivity.
Qed.

(** One press keeps [session_ok], whether the run returns or raises. *)
Lemma handle_session_ok ev s w :
  session_ok s w ->
  match handle ev s w with
  | Return s' w' => session_ok s' w'
  | Raise _ w' => session_ok s w'
  end.
Proof.
  unfold session_ok, handle. intros (Hin & Hout).
  destruct (authenticated s) eqn:Ha; cbn [negb].
  - (* authenticated: only the logout button exists *)
    destruct ev; cbn; try rewrite Ha; try (split; assumption).
    split; [discriminate|reflexivity].
  - destruct ev as [user passwd|nu np cp|]; cbn.
    + unfold bind. rewrite login_button_eq.
      pose proof (login_user_true_registered user passwd w) as Ht.
      destruct (login_user user passwd w) as [[|] w'|e w']; cbn;
        try rewrite Ha.
      * split; [intros _|discriminate].
        exact (Ht w' eq_refl).
      * split; [discriminate|exact Hout].
      * split; [discriminate|exact Hout].
    + unfold bind.
      destruct (create_account nu np cp w) as [[] w'|e w']; cbn;
        try rewrite Ha; (split; [discriminate|exact Hout]).
    + try rewrite Ha. split; [discriminate|exact Hout].
Qed.

(** X9. Along every sequence of presses of the Login, Create Account and
    Logout buttons, from a session that is in order (the initial session
    is): whenever the session is authenticated, its username has a row in
    the account file, and whenever it is not, its username is empty. *)
Theorem run_keeps_session_ok (evs : list Event) :
  forall s w, session_ok s w ->
              session_ok (fst (run evs s w)) (snd (run evs s w)).
Proof.
  induction evs as [|ev rest IH]; intros s w H; [exact H|].
  cbn [run]. pose proof (handle_session_ok ev s w H) as Hs.
  destruct (handle ev s w) as [s' w'|e w']; apply IH; exact Hs.
Qed.

(** X11. A press of "Login" that does not authenticate changes nothing of
    the session: a wrong password, an unknown username and a raise all
    leave it as it was, and a session that is already authenticated is not
    touched by the login and sign-up forms at all. *)
Theorem failed_login_keeps_session (user passwd : string) (s : Session)
    (w : World) :
  outcome_result (login_user user passwd w) <> inr true ->
  fst (run [ClickLogin user passwd] s w) = s.
Proof.
  intros H. cbn [run]. unfold handle.
  destruct (authenticated s); cbn [negb]; [reflexivity|].
  unfold bind. rewrite login_button_eq.
  destruct (login_user user passwd w) as [[|] w'|e w']; cbn;
    try reflexivity.
  exfalso. apply H. reflexivity.
Qed.

Context {L : BcryptLaws B}.

(** After a registration that returned true, login with the same username
    and password returns true, on every world that holds the account file
    the registration left. *)
Lemma registered_user_logs_in user passwd w w2 w' :
  register_user user passwd w = Return true w2 ->
  stored w' = stored w2 ->
  exists w3, login_user user passwd w' = Return true w3.
Proof.
  intros R Hw'.
  destruct (load_users_entropy w) as (users & w1 & E & _ & F & _).
  rewrite register_user_eq, E in R.
  destruct (username_in user users) eqn:Hin; [discriminate|].
  destruct (hashpw passwd (gensalt (entropy w1))) as [e|h] eqn:Hh;
    [discriminate|].
  injection R as <-.
  change (stored (registered user h users w1))
    with (users ++ [mkRow user h]) in Hw'.
  assert (Hs : settled (stored w')).
  { rewrite Hw'. apply settled_app; [exact (settled_loaded _ _ F)|].
    apply settled_marked. constructor; [|constructor].
    exact (hashpw_marker _ _ _ Hh). }
  destruct (load_users_settled _ Hs) as (w3 & E3 & _).
  rewrite Hw' in E3.
  exists w3.
  refine (login_user_first _ _ _ _ _ (mkRow user h) _ E3 _
            (checkpw_hashpw _ _ _ Hh)).
  apply first_match_split; [|reflexivity].
  intros Hc. apply username_in_iff in Hc. congruence.
Qed.

(** X10. Signing up and then logging in: from an unauthenticated session,
    a "Create Account" press with a complete form, a new plain username and
    a password the hasher accepts, followed by a "Login" press with the
    same username and password, ends authenticated as that user. *)
Theorem signup_then_login (user passwd : string) (s : Session) (w : World) :
  authenticated s = false ->
  plain_name user = true ->
  user <> "" -> passwd <> "" ->
  ~ In user (map username (stored w)) ->
  accepts passwd ->
  fst (run [ClickCreate user passwd passwd; ClickLogin user passwd] s w)
  = mkSession true user.
Proof.
  intros Ha _ Hu Hp Hnew Hacc.
  destruct (register_new user passwd w Hnew Hacc)
    as (users & w1 & h & _ & _ & _ & R).
  set (w2 := registered user h users w1) in *.
  destruct (registered_user_logs_in _ _ _ _
              (outcome_world (st_notice Balloons w2)) R eq_refl)
    as (w3 & E3).
  cbn [run]. unfold handle at 1. rewrite Ha. cbn [negb].
  unfold bind at 1. unfold create_account.
  apply String.eqb_neq in Hu, Hp. rewrite Hu, Hp, String.eqb_refl.
  cbn [orb negb]. unfold bind at 1. rewrite R.
  cbn [st_notice ret]. unfold handle. rewrite Ha. cbn [negb].
  unfold bind. rewrite login_button_eq.
  cbn [st_notice outcome_world] in E3. rewrite E3. reflexivity.
Qed.

End ScreenFacts.

(** * The weather utilities *)

Section RainFacts.

Context {R T : Type} {RD : Reading R}.

Variables (precip : list R) (times : list T).

Lemma rain_scan_dry k : forall a,
  (forall i x, a <= i < a + k -> nth_error precip i = Some x -> dry x) ->
  a + k <= length precip ->
  rain_scan precip times (seq a k) = inr (false, None).
Proof.
  induction k as [|k IH]; intros a H Hlen; [reflexivity|].
  cbn [seq rain_scan].
  destruct (nth_error precip a) as [x|] eqn:Hx.
  - rewrite (H a x ltac:(lia) Hx).
    apply IH; [|lia]. intros i y Hi. apply H. lia.
  - apply nth_error_None in Hx. lia.
Qed.

Lemma rain_scan_first k : forall a i x,
  a <= i < a + k ->
  nth_error precip i = Some x ->
  ~ dry x ->
  (forall j y, a <= j < i -> nth_error precip j = Some y -> dry y) ->
  rain_scan precip times (seq a k) = decided times x i.
Proof.
  induction k as [|k IH]; intros a i x Hi Hx Hnd Hbefore; [lia|].
  cbn [seq rain_scan].
  destruct (Nat.eq_dec a i) as [->|Hne].
  - rewrite Hx. unfold decided, dry in *.
    destruct (float_positive x) as [e|[|]]; try reflexivity.
    contradiction.
  - assert (Ha : a < length precip).
    { apply nth_error_Some. intros Hn.
      assert (Hi' : i < length precip)
        by (apply nth_error_Some; congruence).
      apply nth_error_None in Hn. lia. }
    destruct (nth_error precip a) as [y|] eqn:Hy;
      [|apply nth_error_None in Hy; lia].
    rewrite (Hbefore a y ltac:(lia) Hy).
    apply IH; try assumption; [lia|].
    intros j z Hj. apply Hbefore. lia.
Qed.

(** Either every reading visited is dry, or there is a first one that is
    not. *)
Lemma rain_scan_cases k : forall a,
  a + k <= length precip ->
  (forall i x, a <= i < a + k -> nth_error precip i = Some x -> dry x) \/
  (exists i x, a <= i < a + k /\ nth_error precip i = Some x /\ ~ dry x /\
               forall j y, a <= j < i -> nth_error precip j = Some y -> dry y).
Proof.
  induction k as [|k IH]; intros a Hlen.
  - left. intros i x Hi. lia.
  - destruct (nth_error precip a) as [x|] eqn:Hx;
      [|apply nth_error_None in Hx; lia].
    destruct (float_positive x) as [e|[|]] eqn:Hf.
    + right. exists a, x.
      split; [lia|]. split; [exact Hx|].
      split; [unfold dry; congruence|]. intros j y Hj. lia.
    + right. exists a, x.
      split; [lia|]. split; [exact Hx|].
      split; [unfold dry; congruence|]. intros j y Hj. lia.
    + destruct (IH (S a) ltac:(lia)) as [Hall|(i & y & Hi & Hy & Hnd & Hb)].
      * left. intros i y Hi Hy.
        destruct (Nat.eq_dec i a) as [->|Hne];
          [unfold dry; congruence|].
        apply (Hall i y); [lia|exact Hy].
      * right. exists i, y.
        split; [lia|]. split; [exact Hy|]. split; [exact Hnd|].
        intros j z Hj Hz.
        destruct (Nat.eq_dec j a) as [->|Hne];
          [unfold dry; congruence|].
        apply (Hb j z); [lia|exact Hz].
Qed.

Lemma decided_not_dry_result x i : decided times x i <> inr (false, None).
Proof.
  unfold decided. destruct (float_positive x); [discriminate|].
  destruct (nth_error times i); discriminate.
Qed.

End RainFacts.

Section RainTheorems.

Context {R T : Type} {RD : Reading R}.

(** The indices the loop visits. *)
Lemma window_spec (w : Weather R T) (hours : Z) (i : nat) :
  i < Z.to_nat (Z.min hours (Z.of_nat (length (readings w)))) <->
  (Z.of_nat i < hours)%Z /\ i < length (readings w).
Proof. lia. Qed.

Lemma will_rain_eq (w : Weather R T) (hours : Z) :
  will_rain_in_next_hours w hours =
  rain_scan (readings w) (stamps w)
    (seq 0 (Z.to_nat (Z.min hours (Z.of_nat (length (readings w)))))).
Proof. reflexivity. Qed.

(** X13. [will_rain_in_next_hours] answers from the first reading, among
    the first [hours] ones, that is not dry.  When that reading is rain, the
    answer is [True] with the time stamp at the same index, or [IndexError]
    when the [time] array is too short; when [float] raises on it, that
    exception is the answer. *)
Theorem will_rain_first_reading (w : Weather R T) (hours : Z) (i : nat)
    (x : R) :
  (Z.of_nat i < hours)%Z ->
  nth_error (readings w) i = Some x ->
  ~ dry x ->
  (forall j y, j < i -> nth_error (readings w) j = Some y -> dry y) ->
  will_rain_in_next_hours w hours =
  match float_positive x with
  | inl e => inl e
  | inr _ =>
      match nth_error (stamps w) i with
      | Some t => inr (true, Some t)
      | None => inl IndexError
      end
  end.
Proof.
  intros Hi Hx Hnd Hb. rewrite will_rain_eq.
  assert (Hlen : i < length (readings w))
    by (apply nth_error_Some; congruence).
  apply (rain_scan_first (readings w) (stamps w) _ 0 i x);
    try assumption.
  - split; [lia|]. cbn. apply window_spec. split; assumption.
  - intros j y Hj. apply Hb. lia.
Qed.

(** X14. The answer is [(False, None)] exactly when every reading among the
    first [hours] ones is dry. *)
Theorem will_rain_false_iff (w : Weather R T) (hours : Z) :
  will_rain_in_next_hours w hours = inr (false, None) <->
  (forall i x, (Z.of_nat i < hours)%Z ->
               nth_error (readings w) i = Some x -> dry x).
Proof.
  rewrite will_rain_eq.
  set (k := Z.to_nat (Z.min hours (Z.of_nat (length (readings w))))).
  assert (Hk : 0 + k <= length (readings w)) by (subst k; lia).
  split.
  - intros E i x Hi Hx.
    assert (Hlen : i < length (readings w))
      by (apply nth_error_Some; congruence).
    destruct (rain_scan_cases (readings w) k 0 Hk)
      as [Hall|(j & y & Hj & Hy & Hnd & Hb)].
    + apply (Hall i x); [|exact Hx].
      split; [lia|]. cbn. apply window_spec. split; assumption.
    + rewrite (rain_scan_first (readings w) (stamps w) k 0 j y Hj Hy Hnd Hb)
        in E.
      exfalso. exact (decided_not_dry_result _ _ _ E).
  - intros H. apply rain_scan_dry; [|exact Hk].
    intros i x Hi. apply H.
    assert (Hw : i < k) by lia. apply window_spec in Hw. tauto.
Qed.

(** X15. Missing data is no rain: without the [hourly] key, without the
    [precipitation] key, with an empty [precipitation] array, or with
    [hours] at most zero, the answer is [(False, None)] and nothing is
    raised. *)
Theorem will_rain_missing_data (w : Weather R T) (hours : Z) :
  hourly w = None \/ readings w = [] \/ (hours <= 0)%Z ->
  will_rain_in_next_hours w hours = inr (false, None).
Proof.
  intros H. apply will_rain_false_iff. intros i x Hi Hx.
  destruct H as [H|[H|H]].
  - unfold readings in Hx. rewrite H in Hx. destruct i; discriminate.
  - rewrite H in Hx. destruct i; discriminate.
  - lia.
Qed.

(** X16. A longer look-ahead never takes back an answer: once the answer
    within [hours] is rain or an exception, every larger [hours] gives the
    same answer. *)
Theorem will_rain_monotone (w : Weather R T) (hours hours' : Z) :
  will_rain_in_next_hours w hours <> inr (false, None) ->
  (hours <= hours')%Z ->
  will_rain_in_next_hours w hours' = will_rain_in_next_hours w hours.
Proof.
  intros Hne Hle.
  set (k := Z.to_nat (Z.min hours (Z.of_nat (length (readings w))))).
  assert (Hk : 0 + k <= length (readings w)) by (subst k; lia).
  destruct (rain_scan_cases (readings w) k 0 Hk)
    as [Hall|(j & y & Hj & Hy & Hnd & Hb)].
  - exfalso. apply Hne. rewrite will_rain_eq.
    apply rain_scan_dry; assumption.
  - assert (Hw : j < k) by lia. apply window_spec in Hw.
    destruct Hw as (Hjh & Hjl).
    rewrite (will_rain_first_reading w hours j y); try assumption.
    + apply will_rain_first_reading; try assumption; [lia|].
      intros i z Hi. apply Hb. lia.
    + intros i z Hi. apply Hb. lia.
Qed.

(** X17. Only the first [hours] entries of the two arrays are looked at:
    two responses that agree on them get the same answer, whatever comes
    later in the arrays. *)
Theorem will_rain_window (w1 w2 : Weather R T) (hours : Z) :
  firstn (Z.to_nat hours) (readings w1) = firstn (Z.to_nat hours) (readings w2)
  ->
  firstn (Z.to_nat hours) (stamps w1) = firstn (Z.to_nat hours) (stamps w2)
  ->
  will_rain_in_next_hours w1 hours = will_rain_in_next_hours w2 hours.
Proof.
  intros Hp Ht. rewrite !will_rain_eq.
  assert (Hn : forall A (l1 l2 : list A) i,
             firstn (Z.to_nat hours) l1 = firstn (Z.to_nat hours) l2 ->
             i < Z.to_nat hours -> nth_error l1 i = nth_error l2 i).
  { intros A l1 l2 i H Hi.
    pose proof (nth_error_firstn (Z.to_nat hours) l1 i) as H1.
    pose proof (nth_error_firstn (Z.to_nat hours) l2 i) as H2.
    apply Nat.ltb_lt in Hi. rewrite Hi in H1, H2. congruence. }
  assert (Hlen : Z.to_nat (Z.min hours (Z.of_nat (length (readings w1))))
                 = Z.to_nat (Z.min hours (Z.of_nat (length (readings w2))))).
  { pose proof (f_equal (@length R) Hp) as Hl.
    rewrite !length_firstn in Hl. lia. }
  rewrite <- Hlen.
  set (k := Z.to_nat (Z.min hours (Z.of_nat (length (readings w1))))).
  assert (Hk : k <= Z.to_nat hours) by (subst k; lia).
  clearbody k. clear Hlen.
  assert (G : forall n a, a + n <= Z.to_nat hours ->
              rain_scan (readings w1) (stamps w1) (seq a n)
              = rain_scan (readings w2) (stamps w2) (seq a n)).
  { induction n as [|n IH]; intros a Ha; [reflexivity|].
    cbn [seq rain_scan].
    rewrite (Hn _ _ _ a Hp), (Hn _ _ _ a Ht) by lia.
    rewrite IH by lia. reflexivity. }
  apply G. lia.
Qed.

End RainTheorems.

(** X18. [cloud_visual] is monotone in the cloud cover: at a larger value
    the label is never a clearer one.  The label is "Dark Clouds" from 75
    up and "Clear Skies" below 30, with no bound checked on either side. *)
Theorem cloud_visual_monotone (c1 c2 : QArith_base.Q) :
  QArith_base.Qle c1 c2 ->
  (cloud_visual c1 = "🌧️ Dark Clouds" -> cloud_visual c2 = "🌧️ Dark Clouds")
  /\
  (cloud_visual c2 = "☀️ Clear Skies" -> cloud_visual c1 = "☀️ Clear Skies")
  /\
  (cloud_visual c1 = "🌧️ Dark Clouds"
   <-> QArith_base.Qle (QArith_base.inject_Z 75) c1) /\
  (cloud_visual c1 = "☀️ Clear Skies"
   <-> QArith_base.Qlt c1 (QArith_base.inject_Z 30)).
Proof.
  intros Hle.
  assert (Hmono : forall k, QArith_base.Qle_bool k c1 = true ->
                            QArith_base.Qle_bool k c2 = true).
  { intros k H. apply QArith_base.Qle_bool_iff.
    apply QArith_base.Qle_bool_iff in H.
    eapply QArith_base.Qle_trans; eassumption. }
  assert (Hstep : forall c,
             QArith_base.Qle_bool (QArith_base.inject_Z 75) c = true ->
             QArith_base.Qle_bool (QArith_base.inject_Z 30) c = true).
  { intros c H. apply QArith_base.Qle_bool_iff.
    apply QArith_base.Qle_bool_iff in H.
    eapply QArith_base.Qle_trans; [|exact H].
    unfold QArith_base.Qle. cbn. lia. }
  unfold cloud_visual.
  destruct (QArith_base.Qle_bool (QArith_base.inject_Z 75) c1) eqn:E1.
  - rewrite (Hmono _ E1).
    split; [reflexivity|]. split; [discriminate|].
    split.
    + split; [intros _; apply QArith_base.Qle_bool_iff; exact E1|reflexivity].
    + split; [discriminate|]. intros Hlt.
      apply QArith_base.Qlt_not_le in Hlt. exfalso. apply Hlt.
      apply QArith_base.Qle_bool_iff. exact (Hstep _ E1).
  - assert (N75 : ~ QArith_base.Qle (QArith_base.inject_Z 75) c1).
    { intros H. apply QArith_base.Qle_bool_iff in H. congruence. }
    destruct (QArith_base.Qle_bool (QArith_base.inject_Z 30) c1) eqn:F1.
    + rewrite (Hmono _ F1).
      split; [discriminate|].
      split; [destruct (QArith_base.Qle_bool _ c2); discriminate|].
      split; [split; [discriminate|intros H; contradiction]|].
      split; [discriminate|]. intros Hlt.
      apply QArith_base.Qlt_not_le in Hlt. exfalso. apply Hlt.
      apply QArith_base.Qle_bool_iff. exact F1.
    + split; [discriminate|]. split; [reflexivity|].
      split; [split; [discriminate|intros H; contradiction]|].
      split; [intros _|reflexivity].
      apply QArith_base.Qnot_le_lt. intros H.
      apply QArith_base.Qle_bool_iff in H. congruence.
Qed.

(** * Geocoding *)

Section GeocodeFacts.

Context {V : Type} {G : Geocoder V}.

(** X19. [geocode_place] returns [None] exactly when the request went
    through and the response has no [results] key, a [null] one, or an
    empty array. *)
Theorem geocode_place_none_iff (place_name : string) :
  geocode_place place_name = inr None <->
  exists j, geocoding_reply place_name = inr j /\
            (results j = None \/ results j = Some []).
Proof.
  unfold geocode_place, geocoding_reply.
  destruct (geocoding_get _ _ 8) as [e|j].
  - split; [discriminate|]. intros (j & H & _). discriminate.
  - split.
    + intros H. exists j. split; [reflexivity|].
      destruct (results j) as [[|first rest]|]; auto.
      exfalso. unfold dict_item in H.
      destruct (dict_get first "latitude"); [|discriminate].
      destruct (dict_get first "longitude"); discriminate.
    + intros (j' & [= <-] & [H|H]); rewrite H; reflexivity.
Qed.

(** X20. With a non-empty [results] array, [geocode_place] answers from
    its first object only: it raises [KeyError] exactly when that object
    lacks [latitude] or [longitude], and otherwise returns the two values
    with the [name] and [country] of the object, each [None] when
    missing. *)
Theorem geocode_place_first_result (place_name : string)
    (j : GeoResponse V) (first : Dict V) (others : list (Dict V)) :
  geocoding_reply place_name = inr j ->
  results j = Some (first :: others) ->
  (geocode_place place_name = inl KeyError <->
   dict_get first "latitude" = None \/ dict_get first "longitude" = None) /\
  (forall lat lon,
      dict_get first "latitude" = Some lat ->
      dict_get first "longitude" = Some lon ->
      geocode_place place_name
      = inr (Some (lat, lon, dict_get first "name",
                   dict_get first "country"))).
Proof.
  unfold geocode_place, geocoding_reply. intros -> ->. unfold dict_item.
  destruct (dict_get first "latitude") as [lat|];
    destruct (dict_get first "longitude") as [lon|]; split;
    try (split; [discriminate|intros [H|H]; discriminate]);
    try (split; [auto|reflexivity]);
    try (intros ? ? [= <-] [= <-]; reflexivity);
    try (intros; discriminate).
Qed.

End GeocodeFacts.

Section RunFacts.

Context {B : Bcrypt}.

Lemma handle_keeps_usernames ev s w :
  incl (map username (stored w))
       (map username (stored (outcome_world (handle ev s w)))).
Proof.
  unfold handle. destruct (authenticated s); cbn [negb].
  - destruct ev; apply incl_refl.
  - destruct ev as [user passwd|nu np cp|]; [| |apply incl_refl].
    + unfold bind. rewrite login_button_eq.
      pose proof (login_user_keeps_usernames user passwd w) as H.
      destruct (login_user user passwd w) as [[|] w'|e w'];
        unfold stored, ret in *; cbn [outcome_world users_csv] in *;
        rewrite H; apply incl_refl.
    + unfold bind.
      pose proof (create_account_keeps_usernames nu np cp w) as H.
      destruct (create_account nu np cp w) as [[] w'|e w']; exact H.
Qed.

(** X12. No press removes an account: on a table whose cells are read
    back as written, and with plain names in the sign-up form, every
    username the account file holds before a sequence of presses is still
    in it afterwards. *)
Theorem run_keeps_usernames (evs : list Event) :
  forall s w,
    text_table (stored w) ->
    Forall event_plain evs ->
    incl (map username (stored w))
         (map username (stored (snd (run evs s w)))).
Proof.
  induction evs as [|ev rest IH]; intros s w Ht Hp; [apply incl_refl|].
  assert (G : forall evs' s' w',
             incl (map username (stored w'))
                  (map username (stored (snd (run evs' s' w'))))).
  { clear. induction evs' as [|ev rest IH]; intros s w; [apply incl_refl|].
    cbn [run]. pose proof (handle_keeps_usernames ev s w) as H.
    destruct (handle ev s w) as [s' w'|e w']; cbn [outcome_world] in H;
      (eapply incl_tran; [exact H|apply IH]). }
  apply G.
Qed.

End RunFacts.

(** * Witnesses of the further properties *)


Lemma load_users_leaves_no_plaintext_witness :
  exists users w1,
    @load_users standin_bcrypt
      (world0 (Some [mkRow "alice" "hunter2"; mkRow "bob" long_text_password]))
    = Return users w1 /\
    stored w1 = users /\
    Forall (@hashed_or_rejected standin_bcrypt) users.
Proof.
  apply (@load_users_leaves_no_plaintext standin_bcrypt StandinFacts.laws).
  repeat constructor.
Defined.

Lemma login_user_reads_only_witness :
  outcome_world (@login_user standin_bcrypt "alice" "hunter2" alice_world)
  = alice_world.
Proof.
  apply (@login_user_reads_only standin_bcrypt "alice" "hunter2" alice_world).
  repeat constructor.
Defined.


Lemma login_user_repeatable_witness :
  outcome_result
    (@login_user standin_bcrypt "alice" "hunter2"
       (outcome_world
          (@login_user standin_bcrypt "alice" "hunter2"
             (world0 (Some [mkRow "alice" "hunter2"])))))
  = outcome_result
      (@login_user standin_bcrypt "alice" "hunter2"
         (world0 (Some [mkRow "alice" "hunter2"]))).
Proof.
  apply (@login_user_repeatable standin_bcrypt StandinFacts.laws).
Defined.

Lemma register_user_makes_directory_witness :
  In (path_join USER_DIR "/tmp/x")
     (user_dirs (outcome_world
                   (@register_user standin_bcrypt "/tmp/x" "pw" (world0 None))))
  /\ path_join USER_DIR "/tmp/x" = "/tmp/x".
Proof.
  destruct (@register_user_makes_directory standin_bcrypt "/tmp/x" "pw"
              (world0 None)
              (outcome_world
                 (@register_user standin_bcrypt "/tmp/x" "pw" (world0 None)))
              eq_refl) as (H1 & H2 & _).
  split; [exact H1|exact (H2 eq_refl)].
Defined.

Lemma create_account_rejected_form_witness :
  exists msg,
    @create_account standin_bcrypt "bob" "pw1" "pw2"
      (world0 (Some [mkRow "alice" "hunter2"]))
    = Return tt (mkWorld (Some [mkRow "alice" "hunter2"]) [] 0 [Warning msg]).
Proof.
  apply (@create_account_rejected_form standin_bcrypt "bob" "pw1" "pw2"
           (world0 (Some [mkRow "alice" "hunter2"]))).
  right. right. discriminate.
Defined.

Lemma run_keeps_session_ok_witness :
  session_ok
    (fst (@run standin_bcrypt
            [ClickCreate "bob" "pw1" "pw1"; ClickLogin "bob" "pw1"]
            initial_session (world0 None)))
    (snd (@run standin_bcrypt
            [ClickCreate "bob" "pw1" "pw1"; ClickLogin "bob" "pw1"]
            initial_session (world0 None))).
Proof.
  apply (@run_keeps_session_ok standin_bcrypt).
  split; [discriminate|reflexivity].
Defined.

Lemma signup_then_login_witness :
  fst (@run standin_bcrypt
         [ClickCreate "bob" "pw1" "pw1"; ClickLogin "bob" "pw1"]
         initial_session (world0 None))
  = mkSession true "bob".
Proof.
  apply (@signup_then_login standin_bcrypt StandinFacts.laws).
  - reflexivity.
  - reflexivity.
  - discriminate.
  - discriminate.
  - simpl. intros [].
  - apply StandinFacts.accepts_short. reflexivity.
Defined.

Lemma failed_login_keeps_session_witness :
  fst (@run standin_bcrypt [ClickLogin "alice" "wrong"] initial_session
         alice_world)
  = initial_session.
Proof.
  apply (@failed_login_keeps_session standin_bcrypt).
  vm_compute. discriminate.
Defined.

Lemma will_rain_first_reading_witness :
  @will_rain_in_next_hours _ _ tenths_reading forecast 6
  = inr (true, Some "02:00").
Proof.
  apply (@will_rain_first_reading _ _ tenths_reading forecast 6 2 (Some 4%Z)).
  - reflexivity.
  - reflexivity.
  - discriminate.
  - intros j y Hj Hy.
    destruct j as [|[|j]]; [| |lia];
      cbn in Hy; injection Hy as <-; reflexivity.
Defined.

Lemma will_rain_missing_data_witness :
  @will_rain_in_next_hours (option Z) string tenths_reading
    (mkWeather None) 6
  = inr (false, None).
Proof.
  apply (@will_rain_missing_data _ _ tenths_reading). left. reflexivity.
Defined.

Lemma will_rain_monotone_witness :
  @will_rain_in_next_hours _ _ tenths_reading forecast 48
  = @will_rain_in_next_hours _ _ tenths_reading forecast 3.
Proof.
  apply (@will_rain_monotone _ _ tenths_reading forecast 3 48).
  - vm_compute. discriminate.
  - lia.
Defined.

Lemma will_rain_window_witness :
  @will_rain_in_next_hours _ _ tenths_reading forecast 3
  = @will_rain_in_next_hours _ _ tenths_reading
      (mkWeather (Some (mkHourly
         (Some [Some 0%Z; Some 0%Z; Some 4%Z])
         (Some ["00:00"; "01:00"; "02:00"; "never"])))) 3.
Proof.
  apply (@will_rain_window _ _ tenths_reading); reflexivity.
Defined.

Lemma cloud_visual_monotone_witness :
  cloud_visual (QArith_base.inject_Z 100) = "🌧️ Dark Clouds".
Proof.
  apply (proj1 (cloud_visual_monotone (QArith_base.inject_Z 80)
                  (QArith_base.inject_Z 100)
                  ltac:(unfold QArith_base.Qle; simpl; lia))).
  reflexivity.
Defined.

Lemma geocode_place_first_result_witness :
  @geocode_place string one_place "Bengaluru"
  = inr (Some ("12.97", "77.59", Some "Bengaluru", None)).
Proof.
  apply (@geocode_place_first_result string one_place "Bengaluru"
           (mkGeoResponse
              (Some [[("latitude", "12.97"); ("longitude", "77.59");
                      ("name", "Bengaluru")]]))
           [("latitude", "12.97"); ("longitude", "77.59");
            ("name", "Bengaluru")] []);
    reflexivity.
Defined.

Lemma get_user_path_idempotent_witness :
  get_user_path "bob" (outcome_world (get_user_path "bob" (world0 None)))
  = Return "users/bob" (outcome_world (get_user_path "bob" (world0 None))).
Proof.
  apply (get_user_path_idempotent "bob" "users/bob" (world0 None)
           (outcome_world (get_user_path "bob" (world0 None)))).
  reflexivity.
Defined.

Lemma run_keeps_usernames_witness :
  incl (map username (stored alice_world))
       (map username
          (stored (snd (@run standin_bcrypt
                          [ClickCreate "bob" "pw1" "pw1";
                           ClickLogin "bob" "pw1"; ClickLogout]
                          initial_session alice_world)))).
Proof.
  apply (@run_keeps_usernames standin_bcrypt).
  - repeat constructor.
  - repeat constructor.
Defined.

